(** * Binary patchers of the launcher: a shallow embedding

    Two scripts rewrite compiled binaries in place:

    - [scripts/patch_glibc_seccomp.py] looks for [svc #0] instructions that
      follow a [mov x8, #NR] of a blocked syscall and overwrites the trap
      with [movn x0, #37];
    - [scripts/patch_vortek_socket_path.py] replaces two path strings by
      shorter ones, padded with null bytes.

    Buffers are lists of bytes, instruction words are integers with the
    bit operations of [Z], the file system is a finite map from paths to
    contents, and a Python exception is a [Raise] of the result type. Of
    the messages the scripts print, the model keeps the matches that the
    instruction patcher reports and the exception that decoding a byte
    string for a message can raise.

    The embedding of the two scripts comes first, then the vocabulary of
    the properties, then the properties and their proofs. *)

From Stdlib Require Import ZArith Lia List Strings.Byte Strings.String.
From stdpp Require Import base option list gmap strings.

Local Open Scope Z_scope.

(** ** Python values shared by both scripts *)

Abbreviation bytes := (list byte).

#[global] Instance byte_eq_decision : EqDecision byte := Byte.byte_eq_dec.
#[global] Instance byte_countable : Countable byte :=
  inj_countable Byte.to_N Byte.of_N Byte.of_to_N.

(** The exceptions the two scripts can meet. *)
Inductive exn : Type :=
| FileNotFoundError (path : string)
| StructError
| UnicodeDecodeError
| SystemExit (code : Z).

Inductive result (A : Type) : Type :=
| Ok (a : A)
| Raise (e : exn).
Arguments Ok {A} a.
Arguments Raise {A} e.

#[global] Instance result_ret : MRet result := @Ok.
#[global] Instance result_bind : MBind result := fun A B k r =>
  match r with
  | Ok a => k a
  | Raise e => Raise e
  end.

(** A file system: the regular files and their contents, each under the
    one path by which the scripts are given it. A path that is no key names
    no regular file: [os.path.isfile] is false of it and [open] fails. Two
    spellings of one path, links and directories are outside of it. *)
Abbreviation filesystem := (gmap string bytes).

(** [open(path, 'rb').read()]; of the ways [open] can fail, the one of a
    path that does not exist. *)
Definition read_file (fs : filesystem) (path : string) : result bytes :=
  match fs !! path with
  | Some content => Ok content
  | None => Raise (FileNotFoundError path)
  end.

(** [open(path, 'wb').write(data)] *)
Definition write_file (fs : filesystem) (path : string) (data : bytes) : filesystem :=
  <[path := data]> fs.

(** [range(start, stop, step)] for a positive [step]. *)
Fixpoint range_from (start step : Z) (n : nat) : list Z :=
  match n with
  | O => []
  | S k => start :: range_from (start + step) step k
  end.

Definition py_range (start stop step : Z) : list Z :=
  range_from start step (Z.to_nat ((stop - start + step - 1) / step)).

(** [data[lo:hi]] for [0 <= lo]; Python clips both ends at [len(data)]. *)
Definition slice (data : bytes) (lo hi : Z) : bytes :=
  take (Z.to_nat (hi - lo)) (drop (Z.to_nat lo) data).

(** [data[lo:hi] = v] on a bytearray, for [0 <= lo <= hi]. *)
Definition set_slice (data : bytes) (lo hi : Z) (v : bytes) : bytes :=
  take (Z.to_nat lo) data ++ v ++ drop (Z.to_nat hi) data.

Definition byte_to_Z (b : byte) : Z := Z.of_N (Byte.to_N b).

Definition byte_of_Z (z : Z) : byte :=
  match Byte.of_N (Z.to_N z) with
  | Some b => b
  | None => x00
  end.

(** [struct.pack('<I', insn)]: four bytes, least significant first;
    [struct.error] outside the unsigned 32-bit range. *)
Definition pack_u32_le (insn : Z) : result bytes :=
  if decide (0 <= insn < 2 ^ 32) then
    Ok [ byte_of_Z (insn mod 256);
         byte_of_Z (insn / 256 mod 256);
         byte_of_Z (insn / 65536 mod 256);
         byte_of_Z (insn / 16777216 mod 256) ]
  else Raise StructError.

(** [struct.unpack('<I', b)[0]]: [struct.error] unless [b] has four bytes. *)
Definition unpack_u32_le (b : bytes) : result Z :=
  match b with
  | [b0; b1; b2; b3] =>
      Ok (byte_to_Z b0 + 256 * byte_to_Z b1 + 65536 * byte_to_Z b2
          + 16777216 * byte_to_Z b3)
  | _ => Raise StructError
  end.

(** ** scripts/patch_glibc_seccomp.py *)

Module Seccomp.

(** aarch64 syscall numbers to patch, in the order the dict lists them. *)
Definition BLOCKED_SYSCALLS : list (Z * string) :=
  [ (99, "set_robust_list"%string); (293, "rseq"%string) ].

(** [svc #0] *)
Definition SVC_0 : bytes := [x01; x00; x00; xd4].
(** [movn x0, #37], that is x0 = -38 = -ENOSYS *)
Definition MOVN_X0_37 : bytes := [xa0; x04; x80; x92].

(** [0x694] is [0b11010010100]. *)
Definition encode_movz_x8 (imm16 : Z) : result bytes :=
  let insn := Z.lor (Z.lor (Z.shiftl 0x694 21) (Z.shiftl imm16 5)) 8 in
  pack_u32_le insn.

(** The lookup table of [patch_binary]: the bytes of [mov x8, #NR] of each
    blocked syscall, mapped to the number and its name. *)
Fixpoint build_targets (table : list (Z * string))
    (targets : gmap bytes (Z * string)) : result (gmap bytes (Z * string)) :=
  match table with
  | [] => Ok targets
  | (nr, name) :: rest =>
      mov_bytes ← encode_movz_x8 nr;
      build_targets rest (<[mov_bytes := (nr, name)]> targets)
  end.

Definition LOOKBACK : Z := 16.

(** [(insn & 0xFFE0001F) == 0xD2800008]: MOVZ X8 of any value. *)
Definition is_movz_x8 (insn : Z) : bool :=
  bool_decide (Z.land insn 0xFFE0001F = 0xD2800008).

(** [(insn >> 26) in (0x05, 0x25, 0x6B)] *)
Definition is_branch (insn : Z) : bool :=
  bool_decide (Z.shiftr insn 26 ∈ [0x05; 0x25; 0x6B]).

(** What the script prints for a patched trap. *)
Record MatchRecord : Type := mkMatch {
  trap_offset : Z;
  anchor_offset : Z;
  distance : Z;
  syscall_nr : Z;
  syscall_name : string
}.

#[global] Instance MatchRecord_eq_decision : EqDecision MatchRecord.
Proof. solve_decision. Defined.

Inductive lookback_result : Type :=
| Found (m : MatchRecord)
| NotFound.

(** The inner loop, [for back in range(1, LOOKBACK + 1)], over the values
    of [back] still to visit. *)
Fixpoint lookback (targets : gmap bytes (Z * string)) (data : bytes)
    (offset : Z) (backs : list Z) : result lookback_result :=
  match backs with
  | [] => Ok NotFound
  | back :: rest =>
      let prev_off := offset - back * 4 in
      if decide (prev_off < 0) then Ok NotFound
      else
        let prev := slice data prev_off (prev_off + 4) in
        match targets !! prev with
        | Some (nr, name) => Ok (Found (mkMatch offset prev_off back nr name))
        | None =>
            insn ← unpack_u32_le prev;
            if is_movz_x8 insn then Ok NotFound
            else if is_branch insn then Ok NotFound
            else lookback targets data offset rest
        end
  end.

(** The state of the scan: the bytearray and the matches printed so far;
    [total_patches] is the number of matches. *)
Record scan_state : Type := mkScan {
  st_data : bytes;
  st_matches : list MatchRecord
}.

(** One iteration of [for offset in range(4, len(data) - 3, 4)]. *)
Definition scan_step (targets : gmap bytes (Z * string)) (st : scan_state)
    (offset : Z) : result scan_state :=
  if decide (slice (st_data st) offset (offset + 4) = SVC_0) then
    r ← lookback targets (st_data st) offset (py_range 1 (LOOKBACK + 1) 1);
    match r with
    | Found m =>
        Ok (mkScan (set_slice (st_data st) offset (offset + 4) MOVN_X0_37)
                   (st_matches st ++ [m]))
    | NotFound => Ok st
    end
  else Ok st.

Fixpoint scan_loop (targets : gmap bytes (Z * string)) (st : scan_state)
    (offsets : list Z) : result scan_state :=
  match offsets with
  | [] => Ok st
  | offset :: rest =>
      st' ← scan_step targets st offset;
      scan_loop targets st' rest
  end.

(** The part of [patch_binary] between reading and writing the file. *)
Definition scan (data : bytes) : result scan_state :=
  targets ← build_targets BLOCKED_SYSCALLS ∅;
  scan_loop targets (mkScan data []) (py_range 4 (Z.of_nat (length data) - 3) 4).

Definition total_patches (st : scan_state) : Z :=
  Z.of_nat (length (st_matches st)).

(** [patch_binary(filepath)]: the new file system, the returned flag and
    the matches that were printed. *)
Definition patch_binary (fs : filesystem) (filepath : string)
    : result (filesystem * bool * list MatchRecord) :=
  data ← read_file fs filepath;
  st ← scan data;
  if decide (total_patches st = 0) then Ok (fs, false, st_matches st)
  else
    let backup := (filepath +:+ ".orig")%string in
    let fs1 :=
      match fs !! backup with
      | Some _ => fs
      | None => <[backup := data]> fs      (* shutil.copy2(filepath, backup) *)
      end in
    Ok (write_file fs1 filepath (st_data st), true, st_matches st).

(** The loop of [main] over [sys.argv[1:]]. *)
Fixpoint main_loop (fs : filesystem) (any_patched : bool) (paths : list string)
    : result (filesystem * bool) :=
  match paths with
  | [] => Ok (fs, any_patched)
  | filepath :: rest =>
      match fs !! filepath with
      | None => main_loop fs any_patched rest         (* not found: continue *)
      | Some _ =>
          '(fs', patched, _) ← patch_binary fs filepath;
          main_loop fs' (if patched : bool then true else any_patched) rest
      end
  end.

(** [main()], with [sys.argv] as [argv]; the result holds [any_patched]. *)
Definition main (fs : filesystem) (argv : list string) : result (filesystem * bool) :=
  if decide ((length argv < 2)%nat) then Raise (SystemExit 1)
  else main_loop fs false (drop 1 argv).

End Seccomp.

(** ** scripts/patch_vortek_socket_path.py *)

Module Vortek.

Definition OLD_SOCKET : bytes :=
  list_byte_of_string "/data/data/com.winlator/files/rootfs/tmp/.vortek/V0".
Definition NEW_SOCKET : bytes :=
  list_byte_of_string "/data/data/com.mediatek.steamlauncher/V0".

Definition OLD_RUNPATH : bytes :=
  list_byte_of_string "/data/data/com.winlator/files/rootfs/lib".
Definition NEW_RUNPATH : bytes := [].

(** [data.count(old)] for a non-empty [old]: occurrences met from left to
    right, each one starting after the end of the one before. [skip] is the
    number of bytes still covered by the last occurrence. *)
Fixpoint count_from (old : bytes) (skip : nat) (data : bytes) : nat :=
  match data with
  | [] => O
  | _ :: rest =>
      match skip with
      | S k => count_from old k rest
      | O =>
          if decide (old `prefix_of` data)
          then S (count_from old (length old - 1) rest)
          else count_from old 0 rest
      end
  end.

(** [data.count(old)]; the empty string occurs at every position and at
    the end. *)
Definition bytes_count (data old : bytes) : Z :=
  match old with
  | [] => Z.of_nat (length data) + 1
  | _ :: _ => Z.of_nat (count_from old 0 data)
  end.

(** [data.replace(old, new)] for a non-empty [old], with the same walk as
    [count_from]. *)
Fixpoint replace_from (old new : bytes) (skip : nat) (data : bytes) : bytes :=
  match data with
  | [] => []
  | b :: rest =>
      match skip with
      | S k => replace_from old new k rest
      | O =>
          if decide (old `prefix_of` data)
          then new ++ replace_from old new (length old - 1) rest
          else b :: replace_from old new 0 rest
      end
  end.

(** [data.replace(old, new)]; for the empty [old] Python puts [new] before
    every byte and at the end. *)
Definition bytes_replace (data old new : bytes) : bytes :=
  match old with
  | [] => new ++ flat_map (fun b => b :: new) data
  | _ :: _ => replace_from old new 0 data
  end.

Definition in_range (lo hi : Z) (b : byte) : bool :=
  bool_decide (lo <= byte_to_Z b <= hi).

Definition continuation (b : byte) : bool := in_range 0x80 0xBF b.

(** Whether [b.decode()] returns: the well-formed UTF-8 byte sequences,
    without overlong forms, surrogates and code points above U+10FFFF. *)
Fixpoint utf8_valid (b : bytes) : bool :=
  match b with
  | [] => true
  | b0 :: rest =>
      if in_range 0x00 0x7F b0 then utf8_valid rest
      else if in_range 0xC2 0xDF b0 then
        match rest with
        | b1 :: r => continuation b1 && utf8_valid r
        | _ => false
        end
      else if in_range 0xE0 0xEF b0 then
        match rest with
        | b1 :: b2 :: r =>
            (if in_range 0xE0 0xE0 b0 then in_range 0xA0 0xBF b1
             else if in_range 0xED 0xED b0 then in_range 0x80 0x9F b1
             else continuation b1)
            && continuation b2 && utf8_valid r
        | _ => false
        end
      else if in_range 0xF0 0xF4 b0 then
        match rest with
        | b1 :: b2 :: b3 :: r =>
            (if in_range 0xF0 0xF0 b0 then in_range 0x90 0xBF b1
             else if in_range 0xF4 0xF4 b0 then in_range 0x80 0x8F b1
             else continuation b1)
            && continuation b2 && continuation b3 && utf8_valid r
        | _ => false
        end
      else false
  end.

(** [patch_binary(data, old, new, name)]. The two messages of the success
    path print [old.decode()] and [new.decode()], which raise on bytes
    that are not UTF-8. *)
Definition patch_binary (data old new : bytes) (name : string) : result bytes :=
  let count := bytes_count data old in
  if decide (count = 0) then Ok data
  else if decide (Z.of_nat (length new) > Z.of_nat (length old)) then
    Raise (SystemExit 1)
  else
    let padded :=
      new ++ replicate (Z.to_nat (Z.of_nat (length old) - Z.of_nat (length new))) x00 in
    let data' := bytes_replace data old padded in
    if utf8_valid old && utf8_valid new then Ok data'
    else Raise UnicodeDecodeError.

(** [patch_file] for any two patches; the script applies it to the four
    constants above. *)
Definition patch_file_with (old1 new1 old2 new2 : bytes)
    (fs : filesystem) (filepath : string) : result filesystem :=
  data ← read_file fs filepath;
  data ← patch_binary data old1 new1 "Socket path";
  data ← patch_binary data old2 new2 "RUNPATH";
  Ok (write_file fs filepath data).

Definition patch_file : filesystem -> string -> result filesystem :=
  patch_file_with OLD_SOCKET NEW_SOCKET OLD_RUNPATH NEW_RUNPATH.

(** The script run with [sys.argv] as [argv]. *)
Definition main (fs : filesystem) (argv : list string) : result filesystem :=
  match argv with
  | [_; filepath] => patch_file fs filepath
  | _ => Raise (SystemExit 1)
  end.

End Vortek.

(** The files on disk once a run has ended: those the run returned, or the
    ones it started from when it raised before its write. *)
Definition fs_after {A : Type} (fs : filesystem) (proj : A -> filesystem)
    (r : result A) : filesystem :=
  match r with
  | Ok a => proj a
  | Raise _ => fs
  end.

(** * The vocabulary of the properties *)

Import Seccomp.

(** The two anchors of the table and the table as [patch_binary] builds it. *)
Definition MOV_X8_99 : bytes := [x68; x0c; x80; xd2].
Definition MOV_X8_293 : bytes := [xa8; x24; x80; xd2].

Definition the_targets : gmap bytes (Z * string) :=
  <[MOV_X8_293 := (293, "rseq"%string)]>
    (<[MOV_X8_99 := (99, "set_robust_list"%string)]> ∅).

(** [nop] and [ret] (0xD65F03C0). *)
Definition NOP : bytes := [x1f; x20; x03; xd5].
Definition RET : bytes := [xc0; x03; x5f; xd6].

(** The tests of the backward search, on the four bytes of a word. *)
Definition is_load_x8 (w : bytes) : bool :=
  match unpack_u32_le w with
  | Ok insn => is_movz_x8 insn
  | Raise _ => false
  end.

Definition is_branch_word (w : bytes) : bool :=
  match unpack_u32_le w with
  | Ok insn => is_branch insn
  | Raise _ => false
  end.

(** A filler word: four bytes that are neither [svc #0], nor a load into
    x8, nor a branch the search recognises. *)
Definition is_filler (w : bytes) : bool :=
  bool_decide (length w = 4%nat) && negb (bool_decide (w = SVC_0))
  && negb (is_load_x8 w) && negb (is_branch_word w).

(** A word at which the backward search gives up: a load into x8 of a value
    outside the table, or a branch that the branch test recognises. *)
Definition is_stop (w : bytes) : bool :=
  bool_decide (length w = 4%nat) && negb (bool_decide (w = SVC_0))
  && bool_decide (the_targets !! w = None)
  && (is_load_x8 w || is_branch_word w).

(** The integer that [encode_movz_x8] packs. *)
Definition movz_x8_word (imm16 : Z) : Z :=
  Z.lor (Z.lor (Z.shiftl 0x694 21) (Z.shiftl imm16 5)) 8.

(** Strictly increasing lists of offsets. *)
Definition increasing (l : list Z) : Prop :=
  forall (i j : nat) (x y : Z),
    (i < j)%nat -> l !! i = Some x -> l !! j = Some y -> x < y.

(** A step of the scan that leaves the buffer and the list of matches as
    they are. *)
Definition quiet (targets : gmap bytes (Z * string)) (data : bytes) (o : Z) : Prop :=
  forall ms, scan_step targets (mkScan data ms) o = Ok (mkScan data ms).

(** What the loop knows of a match it has recorded, [data0] being the
    buffer read from the file and [data] the bytearray now. *)
Record match_ok (targets : gmap bytes (Z * string)) (data0 data : bytes)
    (o : Z) (m : MatchRecord) : Prop := {
  ok_trap_lo : 4 <= trap_offset m;
  ok_trap_hi : trap_offset m + 4 <= o;
  ok_trap_aligned : trap_offset m mod 4 = 0;
  ok_distance : 1 <= distance m <= 16;
  ok_anchor : anchor_offset m = trap_offset m - distance m * 4;
  ok_anchor_lo : 0 <= anchor_offset m;
  ok_anchor_word :
    targets !! slice data (anchor_offset m) (anchor_offset m + 4)
      = Some (syscall_nr m, syscall_name m);
  ok_trap_before : slice data0 (trap_offset m) (trap_offset m + 4) = SVC_0;
  ok_trap_after : slice data (trap_offset m) (trap_offset m + 4) = MOVN_X0_37
}.

(** The invariant of [for offset in range(4, len(data) - 3, 4)] when the
    next offset is [o]. *)
Record scan_inv (targets : gmap bytes (Z * string)) (data0 : bytes) (o : Z)
    (st : scan_state) : Prop := {
  inv_offset : 4 <= o /\ o mod 4 = 0;
  inv_length : length (st_data st) = length data0;
  inv_frame : forall i : nat,
    (forall m, m ∈ st_matches st ->
               ~ (trap_offset m <= Z.of_nat i < trap_offset m + 4)) ->
    st_data st !! i = data0 !! i;
  inv_matches : Forall (match_ok targets data0 (st_data st) o) (st_matches st);
  inv_sorted : increasing (trap_offset <$> st_matches st);
  inv_quiet : forall o', 4 <= o' < o -> o' mod 4 = 0 -> quiet targets (st_data st) o'
}.

(** [old] occurs somewhere in [data]. *)
Definition occurs (old data : bytes) : Prop :=
  exists pre post, data = pre ++ old ++ post.

(** The contract of the substring patcher in its own words: every exact,
    non-overlapping occurrence of [old], taken from the left, is replaced by
    [padded], and the bytes between the occurrences are kept. *)
Inductive replaced_fixed (old padded : bytes) : bytes -> bytes -> Prop :=
| replaced_done (data : bytes) :
    ~ occurs old data -> replaced_fixed old padded data data
| replaced_next (pre rest out : bytes) :
    (forall pre' post', pre ++ old ++ rest = pre' ++ old ++ post' ->
                        (length pre <= length pre')%nat) ->
    replaced_fixed old padded rest out ->
    replaced_fixed old padded (pre ++ old ++ rest) (pre ++ padded ++ out).

(** The correlator and the applicator as two passes, after their contracts
    [find_matches(buffer, target_table, lookback_limit)] and
    [apply(buffer, matches)]: the matches are searched in a buffer that is
    not written to, then every matched trap is overwritten. *)
Definition find_at (data : bytes) (offset : Z) : option MatchRecord :=
  if decide (slice data offset (offset + 4) = SVC_0) then
    match lookback the_targets data offset (py_range 1 (LOOKBACK + 1) 1) with
    | Ok (Found m) => Some m
    | _ => None
    end
  else None.

Definition find_matches (data : bytes) : list MatchRecord :=
  omap (find_at data) (py_range 4 (Z.of_nat (length data) - 3) 4).

Definition apply_matches (data : bytes) (ms : list MatchRecord) : bytes :=
  foldl (fun d m => set_slice d (trap_offset m) (trap_offset m + 4) MOVN_X0_37)
        data ms.

(** Two buffers whose words at the multiples of four are the same, or
    [svc #0] in the first and the fail-with-ENOSYS word in the second. *)
Definition patched_from (data0 data : bytes) : Prop :=
  forall o, 0 <= o -> o mod 4 = 0 ->
    slice data o (o + 4) = slice data0 o (o + 4) \/
    (slice data0 o (o + 4) = SVC_0 /\ slice data o (o + 4) = MOVN_X0_37).

(** The invariant of the loop, with the matches and the buffer given by the
    two passes over the offsets visited so far. *)
Definition two_pass_inv (data0 : bytes) (o : Z) (st : scan_state) : Prop :=
  scan_inv the_targets data0 o st /\
  exists k : nat,
    o = 4 + 4 * Z.of_nat k /\
    st_matches st = omap (find_at data0) (range_from 4 4 k) /\
    st_data st = apply_matches data0 (st_matches st).

(** The file system after [patch_binary] has written a file. *)
Definition patched_fs (fs : filesystem) (p : string) (data data' : bytes) : filesystem :=
  <[p := data']>
    (match fs !! (p +:+ ".orig")%string with
     | Some _ => fs
     | None => <[(p +:+ ".orig")%string := data]> fs
     end).

(** No non-empty beginning of [new] is an end of [old]: an occurrence of
    [old] cannot end inside a replacement. *)
Definition overlap_free (old new : bytes) : bool :=
  forallb (fun j => negb (bool_decide (take j new = drop (length old - j) old)))
          (seq 1 (length new)).

(** * Properties *)

(** ** Slices *)

Section Slices.
Implicit Types (data v : bytes) (lo hi : Z) (i : nat).

Lemma slice_length data lo hi :
  0 <= lo -> lo <= hi -> hi <= Z.of_nat (length data) ->
  length (slice data lo hi) = Z.to_nat (hi - lo).
Proof.
  intros. unfold slice. rewrite length_take, length_drop. lia.
Qed.

Lemma slice_lookup data lo hi i :
  0 <= lo ->
  slice data lo hi !! i =
    if decide (Z.of_nat i < hi - lo) then data !! (Z.to_nat lo + i)%nat else None.
Proof.
  intros. unfold slice. rewrite lookup_take, lookup_drop.
  repeat case_decide; (done || lia).
Qed.

Lemma slice_ext data1 data2 lo hi :
  0 <= lo ->
  (forall i, lo <= Z.of_nat i < hi -> data1 !! i = data2 !! i) ->
  slice data1 lo hi = slice data2 lo hi.
Proof.
  intros Hlo Hagree. apply list_eq. intros i.
  rewrite !slice_lookup by done. case_decide; [|done].
  apply Hagree. lia.
Qed.

Lemma set_slice_length data lo hi v :
  0 <= lo -> hi = lo + Z.of_nat (length v) -> hi <= Z.of_nat (length data) ->
  length (set_slice data lo hi v) = length data.
Proof.
  intros. unfold set_slice.
  rewrite !length_app, length_take, length_drop. lia.
Qed.

Lemma set_slice_lookup_outside data lo hi v i :
  0 <= lo -> hi = lo + Z.of_nat (length v) -> hi <= Z.of_nat (length data) ->
  ~ (lo <= Z.of_nat i < hi) ->
  set_slice data lo hi v !! i = data !! i.
Proof.
  intros Hlo -> Hhi Hout. unfold set_slice.
  destruct (decide (Z.of_nat i < lo)) as [Hlt|Hge].
  - rewrite lookup_app_l by (rewrite length_take; lia).
    apply lookup_take_lt. lia.
  - rewrite lookup_app_r by (rewrite length_take; lia).
    rewrite lookup_app_r by (rewrite length_take; lia).
    rewrite lookup_drop, length_take. f_equal. lia.
Qed.

Lemma slice_set_slice_same data lo hi v :
  0 <= lo -> hi = lo + Z.of_nat (length v) -> hi <= Z.of_nat (length data) ->
  slice (set_slice data lo hi v) lo hi = v.
Proof.
  intros Hlo -> Hhi. unfold slice, set_slice.
  rewrite drop_app_length' by (rewrite length_take; lia).
  replace (Z.to_nat (lo + Z.of_nat (length v) - lo)) with (length v) by lia.
  apply take_app_length.
Qed.
End Slices.

(** ** Ranges *)

Lemma elem_of_range_from (x start step : Z) (n : nat) :
  x ∈ range_from start step n <->
  exists k : nat, (k < n)%nat /\ x = start + Z.of_nat k * step.
Proof.
  revert start. induction n as [|n IH]; intros start; simpl.
  - split; [intros H; inversion H | intros (k & ? & _); lia].
  - rewrite elem_of_cons, IH. split.
    + intros [->|(k & Hk & ->)].
      * exists O. split; lia.
      * exists (S k). split; lia.
    + intros ([|k] & Hk & ->).
      * left. lia.
      * right. exists k. split; lia.
Qed.

Lemma py_range_lookback :
  py_range 1 (Seccomp.LOOKBACK + 1) 1 =
  [1; 2; 3; 4; 5; 6; 7; 8; 9; 10; 11; 12; 13; 14; 15; 16].
Proof. reflexivity. Qed.

(** The offsets of the outer loop: the multiples of four from 4 on whose
    word lies inside the buffer. *)
Lemma py_range_offsets (len : Z) :
  0 <= len ->
  exists n : nat,
    py_range 4 (len - 3) 4 = range_from 4 4 n /\
    ((0 < n)%nat -> 4 + 4 * Z.of_nat n <= len).
Proof.
  intros Hlen. unfold py_range.
  exists (Z.to_nat ((len - 3 - 4 + 4 - 1) / 4)). split; [done|].
  intros Hn.
  assert (0 < (len - 3 - 4 + 4 - 1) / 4) by lia.
  pose proof (Z.mul_div_le (len - 3 - 4 + 4 - 1) 4 ltac:(lia)). lia.
Qed.

(** ** The instruction codec *)

Lemma byte_to_Z_range (b : byte) : 0 <= byte_to_Z b < 256.
Proof.
  unfold byte_to_Z. pose proof (Byte.to_N_bounded b). lia.
Qed.

Lemma byte_to_of_Z (z : Z) : 0 <= z < 256 -> byte_to_Z (byte_of_Z z) = z.
Proof.
  intros Hz. unfold byte_to_Z, byte_of_Z.
  destruct (Byte.of_N (Z.to_N z)) as [b|] eqn:Hb.
  - apply Byte.to_of_N in Hb. lia.
  - apply Byte.of_N_None_iff in Hb. lia.
Qed.

Lemma unpack_pack (insn : Z) :
  0 <= insn < 2 ^ 32 ->
  exists w, pack_u32_le insn = Ok w /\ length w = 4%nat /\ unpack_u32_le w = Ok insn.
Proof.
  intros Hrange. unfold pack_u32_le. rewrite decide_True by done.
  eexists. split; [reflexivity|]. split; [reflexivity|].
  unfold unpack_u32_le.
  rewrite !byte_to_of_Z by (apply Z.mod_pos_bound; lia).
  f_equal. Z.div_mod_to_equations. lia.
Qed.

Lemma unpack_total (w : bytes) :
  length w = 4%nat -> exists insn, unpack_u32_le w = Ok insn /\ 0 <= insn < 2 ^ 32.
Proof.
  destruct w as [|b0 [|b1 [|b2 [|b3 [|]]]]]; try discriminate. intros _.
  eexists. split; [reflexivity|].
  pose proof (byte_to_Z_range b0). pose proof (byte_to_Z_range b1).
  pose proof (byte_to_Z_range b2). pose proof (byte_to_Z_range b3). lia.
Qed.

Lemma encode_movz_x8_99 : Seccomp.encode_movz_x8 99 = Ok MOV_X8_99.
Proof. reflexivity. Qed.

Lemma encode_movz_x8_293 : Seccomp.encode_movz_x8 293 = Ok MOV_X8_293.
Proof. reflexivity. Qed.

Lemma build_targets_table :
  Seccomp.build_targets Seccomp.BLOCKED_SYSCALLS ∅ = Ok the_targets.
Proof. reflexivity. Qed.

Lemma the_targets_lookup (w : bytes) (x : Z * string) :
  the_targets !! w = Some x <->
  (w = MOV_X8_293 /\ x = (293, "rseq"%string)) \/
  (w = MOV_X8_99 /\ x = (99, "set_robust_list"%string)).
Proof.
  unfold the_targets.
  rewrite lookup_insert_Some, lookup_insert_Some, lookup_empty.
  split.
  - intros [[<- <-]|[? [[<- <-]|[_ ?]]]]; [by left|by right|done].
  - intros [[-> ->]|[-> ->]]; [by left|]. right. split; [done|]. by left.
Qed.

Lemma the_targets_lookup_None (w : bytes) :
  the_targets !! w = None <-> w <> MOV_X8_293 /\ w <> MOV_X8_99.
Proof.
  rewrite eq_None_not_Some. unfold is_Some. split.
  - intros Hnone. split; intros ->; apply Hnone; eexists;
      apply the_targets_lookup; [left|right]; done.
  - intros [H1 H2] [x Hx]. apply the_targets_lookup in Hx.
    destruct Hx as [[-> _]|[-> _]]; done.
Qed.

(** ** The backward search *)

Section Lookback.
Context (targets : gmap bytes (Z * string)).
Implicit Types (data : bytes) (offset : Z) (backs : list Z).

Lemma lookback_cons data offset back rest :
  lookback targets data offset (back :: rest) =
    if decide (offset - back * 4 < 0) then Ok NotFound
    else
      match targets !! slice data (offset - back * 4) (offset - back * 4 + 4) with
      | Some (nr, name) =>
          Ok (Found (mkMatch offset (offset - back * 4) back nr name))
      | None =>
          insn ← unpack_u32_le (slice data (offset - back * 4) (offset - back * 4 + 4));
          if is_movz_x8 insn then Ok NotFound
          else if is_branch insn then Ok NotFound
          else lookback targets data offset rest
      end.
Proof. reflexivity. Qed.

(** The search only reads the words before [offset]. *)
Lemma lookback_agree data1 data2 offset backs :
  Forall (fun back => 1 <= back) backs ->
  (forall i : nat, Z.of_nat i < offset -> data1 !! i = data2 !! i) ->
  lookback targets data1 offset backs = lookback targets data2 offset backs.
Proof.
  intros Hbacks Hagree.
  induction Hbacks as [|back rest Hback _ IH]; [done|].
  rewrite !lookback_cons. case_decide; [done|].
  rewrite (slice_ext data1 data2) by (lia || (intros; apply Hagree; lia)).
  by rewrite IH.
Qed.

(** Inside the buffer every word read has four bytes, so [struct.unpack]
    never raises. *)
Lemma lookback_total data offset backs :
  Forall (fun back => 1 <= back) backs ->
  offset <= Z.of_nat (length data) ->
  exists r, lookback targets data offset backs = Ok r.
Proof.
  intros Hbacks Hoff.
  induction Hbacks as [|back rest Hback _ IH]; [by eexists|].
  rewrite lookback_cons. case_decide; [by eexists|].
  destruct (targets !! _) as [[nr name]|]; [by eexists|].
  destruct (unpack_total (slice data (offset - back * 4) (offset - back * 4 + 4)))
    as (insn & -> & _).
  { rewrite slice_length by lia. lia. }
  cbn [mbind result_bind]. destruct (is_movz_x8 insn); [by eexists|].
  destruct (is_branch insn); [by eexists|]. exact IH.
Qed.

(** What a successful search returns. *)
Lemma lookback_found data offset backs m :
  lookback targets data offset backs = Ok (Found m) ->
  trap_offset m = offset /\
  distance m ∈ backs /\
  anchor_offset m = offset - distance m * 4 /\
  0 <= anchor_offset m /\
  targets !! slice data (anchor_offset m) (anchor_offset m + 4)
    = Some (syscall_nr m, syscall_name m).
Proof.
  induction backs as [|back rest IH]; [done|].
  rewrite lookback_cons. case_decide as Hneg; [done|].
  destruct (targets !! slice data (offset - back * 4) _)
    as [[nr name]|] eqn:Hlook.
  - intros Hm. injection Hm as <-.
    cbn [trap_offset distance anchor_offset syscall_nr syscall_name].
    split; [reflexivity|]. split; [left|]. split; [reflexivity|].
    split; [lia | exact Hlook].
  - destruct (unpack_u32_le _) as [insn|]; cbn [mbind result_bind]; [|done].
    destruct (is_movz_x8 insn); [done|]. destruct (is_branch insn); [done|].
    intros Hrest. destruct (IH Hrest) as (? & ? & ? & ? & ?).
    split; [assumption|]. split; [by right|]. tauto.
Qed.
End Lookback.

Lemma lookback_backs_ok :
  Forall (fun back => 1 <= back) (py_range 1 (Seccomp.LOOKBACK + 1) 1).
Proof. rewrite py_range_lookback. repeat constructor; lia. Qed.

Lemma lookback_backs_range (d : Z) :
  d ∈ py_range 1 (Seccomp.LOOKBACK + 1) 1 -> 1 <= d <= 16.
Proof.
  rewrite py_range_lookback. intros Hd.
  repeat (apply elem_of_cons in Hd as [->|Hd]; [lia|]). inversion Hd.
Qed.

(** ** The scan as a loop with an invariant *)

Lemma increasing_nil : increasing [].
Proof. intros i j x y _ Hi. by rewrite lookup_nil in Hi. Qed.

Lemma increasing_snoc (l : list Z) (y : Z) :
  increasing l -> Forall (fun x => x < y) l -> increasing (l ++ [y]).
Proof.
  intros Hinc Hall i j a b Hij Hi Hj.
  apply lookup_app_Some in Hj as [Hj|[Hlen Hj]].
  - apply lookup_app_Some in Hi as [Hi|[Hlen' _]].
    + by eapply Hinc.
    + apply lookup_lt_Some in Hj. lia.
  - apply list_lookup_singleton_Some in Hj as [Hj ->].
    apply lookup_app_Some in Hi as [Hi|[Hlen' _]]; [|lia].
    rewrite Forall_lookup in Hall. by eapply Hall.
Qed.

Lemma increasing_NoDup (l : list Z) : increasing l -> NoDup l.
Proof.
  intros Hinc. apply NoDup_alt. intros i j x Hi Hj.
  destruct (Nat.lt_trichotomy i j) as [Hlt|[->|Hlt]]; [|done|].
  - pose proof (Hinc i j x x Hlt Hi Hj). lia.
  - pose proof (Hinc j i x x Hlt Hj Hi). lia.
Qed.

Section ScanLoop.
Context (targets : gmap bytes (Z * string)).
Implicit Types (data : bytes) (st : scan_state) (m : MatchRecord).

(** The loop runs to its end whenever every step does, and carries an
    invariant indexed by the next offset. *)
Lemma scan_loop_invariant (Inv : Z -> scan_state -> Prop) (stop : Z) :
  (forall o st, o + 4 <= stop -> Inv o st ->
     exists st', scan_step targets st o = Ok st' /\ Inv (o + 4) st') ->
  forall (n : nat) (start : Z) st,
    ((0 < n)%nat -> start + 4 * Z.of_nat n <= stop) ->
    Inv start st ->
    exists st', scan_loop targets st (range_from start 4 n) = Ok st' /\
                Inv (start + 4 * Z.of_nat n) st'.
Proof.
  intros Hstep n. induction n as [|n IH]; intros start st Hstop Hinv.
  - exists st. split; [done|].
    by replace (start + 4 * Z.of_nat 0) with start by lia.
  - destruct (Hstep start st) as (st1 & Hst1 & Hinv1); [lia|done|].
    destruct (IH (start + 4) st1) as (st' & Hst' & Hinv'); [lia|done|].
    exists st'. split.
    + cbn [range_from scan_loop]. rewrite Hst1. exact Hst'.
    + by replace (start + 4 * Z.of_nat (S n)) with (start + 4 + 4 * Z.of_nat n) by lia.
Qed.

Lemma quiet_no_trap data o : slice data o (o + 4) <> SVC_0 -> quiet targets data o.
Proof.
  intros Hne ms. unfold scan_step. cbn [st_data]. by rewrite decide_False.
Qed.

Lemma quiet_not_found data o :
  lookback targets data o (py_range 1 (LOOKBACK + 1) 1) = Ok NotFound ->
  quiet targets data o.
Proof.
  intros Hnf ms. unfold scan_step. cbn [st_data].
  case_decide; [|done]. by rewrite Hnf.
Qed.

(** A step reads nothing beyond its own word. *)
Lemma quiet_agree data1 data2 o :
  0 <= o ->
  (forall i : nat, Z.of_nat i < o + 4 -> data1 !! i = data2 !! i) ->
  quiet targets data1 o -> quiet targets data2 o.
Proof.
  intros Ho Hagree Hquiet ms. specialize (Hquiet ms).
  unfold scan_step in *. cbn [st_data st_matches] in *.
  rewrite <- (slice_ext data1 data2) by (lia || (intros; apply Hagree; lia)).
  case_decide; [|done].
  rewrite <- (lookback_agree targets data1 data2)
    by (apply lookback_backs_ok || (intros; apply Hagree; lia)).
  destruct (lookback targets data1 o _) as [[m|]|e]; cbn [mbind result_bind] in *;
    [|done|done].
  exfalso. injection Hquiet as _ Hms.
  apply (f_equal length) in Hms. rewrite length_app in Hms. simpl in Hms. lia.
Qed.

Lemma match_ok_later data0 data o m :
  match_ok targets data0 data o m -> match_ok targets data0 data (o + 4) m.
Proof. intros []. split; (done || lia). Qed.

(** Writing at [o] keeps what is known of the matches before [o]. *)
Lemma match_ok_set_slice data0 data o m :
  0 <= o -> o + 4 <= Z.of_nat (length data) ->
  match_ok targets data0 data o m ->
  match_ok targets data0 (set_slice data o (o + 4) MOVN_X0_37) (o + 4) m.
Proof.
  intros Ho Hlen [].
  assert (Hsame : forall lo hi, 0 <= lo -> hi <= o ->
    slice (set_slice data o (o + 4) MOVN_X0_37) lo hi = slice data lo hi).
  { intros lo hi Hlo Hhi. apply slice_ext; [done|]. intros i Hi.
    apply set_slice_lookup_outside; (done || lia). }
  split; try (done || lia).
  - rewrite Hsame by lia. done.
  - rewrite Hsame by lia. done.
Qed.

Lemma scan_inv_init data0 : scan_inv targets data0 4 (mkScan data0 []).
Proof.
  split; cbn [st_data st_matches]; try done.
  - intros o' Ho'. lia.
Qed.

Lemma scan_inv_quiet_step data0 o st :
  scan_inv targets data0 o st -> quiet targets (st_data st) o -> scan_inv targets data0 (o + 4) st.
Proof.
  intros [[Ho Hal] Hlen Hframe Hms Hsorted Hquiet] Hq. split; try done.
  - split; [lia|]. Z.div_mod_to_equations. lia.
  - eapply Forall_impl; [exact Hms|]. intros m. apply match_ok_later.
  - intros o' Ho' Hal'. destruct (decide (o' = o)) as [->|Hne]; [done|].
    apply Hquiet; [|done]. Z.div_mod_to_equations. lia.
Qed.
Lemma scan_inv_match_step data0 o st m :
  o + 4 <= Z.of_nat (length data0) ->
  scan_inv targets data0 o st ->
  slice (st_data st) o (o + 4) = SVC_0 ->
  lookback targets (st_data st) o (py_range 1 (LOOKBACK + 1) 1) = Ok (Found m) ->
  scan_inv targets data0 (o + 4)
    (mkScan (set_slice (st_data st) o (o + 4) MOVN_X0_37) (st_matches st ++ [m])).
Proof.
  intros Hend [[Ho Hal] Hlen Hframe Hms Hsorted Hquiet] Hsvc Hfound.
  destruct st as [data ms]. cbn [st_data st_matches] in *.
  apply lookback_found in Hfound as (Htrap & Hdist & Hanchor & Hanchor0 & Hword).
  apply lookback_backs_range in Hdist.
  assert (Hbefore : forall m', m' ∈ ms -> trap_offset m' + 4 <= o).
  { intros m' Hm'. rewrite Forall_forall in Hms. by destruct (Hms m' Hm'). }
  assert (Houtside : forall i : nat,
    ~ (o <= Z.of_nat i < o + 4) ->
    set_slice data o (o + 4) MOVN_X0_37 !! i = data !! i).
  { intros i Hi. apply set_slice_lookup_outside; (done || lia). }
  split; cbn [st_data st_matches].
  - split; [lia|]. Z.div_mod_to_equations. lia.
  - rewrite <- Hlen. apply set_slice_length; (done || lia).
  - intros i Hi. rewrite Houtside.
    + apply Hframe. intros m' Hm'. apply Hi. apply elem_of_app. by left.
    + rewrite <- Htrap. apply Hi. apply elem_of_app. right. by apply list_elem_of_singleton.
  - apply Forall_app. split.
    + eapply Forall_impl; [exact Hms|]. intros m'.
      apply match_ok_set_slice; lia.
    + apply Forall_singleton. split; try lia.
      * by rewrite Htrap.
      * rewrite <- Hword. f_equal. apply slice_ext; [done|].
        intros i Hi. apply Houtside. lia.
      * rewrite Htrap, <- Hsvc. apply slice_ext; [lia|]. intros i Hi.
        symmetry. apply Hframe. intros m' Hm'. specialize (Hbefore m' Hm'). lia.
      * rewrite Htrap. apply slice_set_slice_same; (done || lia).
  - rewrite fmap_app. apply increasing_snoc; [done|].
    apply Forall_fmap, Forall_forall. intros m' Hm'.
    specialize (Hbefore m' Hm'). simpl. lia.
  - intros o' Ho' Hal'. destruct (decide (o' = o)) as [->|Hne].
    + apply quiet_no_trap. rewrite slice_set_slice_same by (done || lia). done.
    + assert (o' + 4 <= o) by (Z.div_mod_to_equations; lia).
      apply (quiet_agree data); [lia| |by apply Hquiet; [lia|]].
      intros i Hi. symmetry. apply Houtside. lia.
Qed.

(** Every step of the loop returns and keeps the invariant. *)
Lemma scan_inv_step data0 o st :
  o + 4 <= Z.of_nat (length data0) ->
  scan_inv targets data0 o st ->
  exists st', scan_step targets st o = Ok st' /\ scan_inv targets data0 (o + 4) st'.
Proof.
  intros Hend Hinv. pose proof (inv_offset _ _ _ _ Hinv) as [Ho _].
  pose proof (inv_length _ _ _ _ Hinv) as Hlen.
  unfold scan_step. case_decide as Hsvc.
  - destruct (lookback_total targets (st_data st) o (py_range 1 (LOOKBACK + 1) 1))
      as [[m|] Hr]; [apply lookback_backs_ok|lia| |]; rewrite Hr;
      cbn [mbind result_bind].
    + eexists. split; [done|]. by apply scan_inv_match_step.
    + exists st. split; [done|].
      apply scan_inv_quiet_step; [done|]. by apply quiet_not_found.
  - exists st. split; [done|].
    apply scan_inv_quiet_step; [done|]. by apply quiet_no_trap.
Qed.

(** The whole loop on a buffer read from a file. *)
Lemma scan_loop_run data0 :
  exists (n : nat) st',
    py_range 4 (Z.of_nat (length data0) - 3) 4 = range_from 4 4 n /\
    ((0 < n)%nat -> 4 + 4 * Z.of_nat n <= Z.of_nat (length data0)) /\
    scan_loop targets (mkScan data0 []) (range_from 4 4 n) = Ok st' /\
    scan_inv targets data0 (4 + 4 * Z.of_nat n) st'.
Proof.
  destruct (py_range_offsets (Z.of_nat (length data0))) as (n & Hrange & Hn); [lia|].
  destruct (scan_loop_invariant (scan_inv targets data0) (Z.of_nat (length data0))
              (fun o st => scan_inv_step data0 o st) n 4 (mkScan data0 []))
    as (st' & Hrun & Hinv); [done|apply scan_inv_init|].
  by exists n, st'.
Qed.

(** A second pass over the result of the loop changes nothing. *)
Lemma scan_loop_quiet data (n : nat) (start : Z) ms :
  (forall k : nat, (k < n)%nat -> quiet targets data (start + 4 * Z.of_nat k)) ->
  scan_loop targets (mkScan data ms) (range_from start 4 n) = Ok (mkScan data ms).
Proof.
  revert start. induction n as [|n IH]; intros start Hquiet; [done|].
  cbn [range_from scan_loop].
  pose proof (Hquiet O ltac:(lia) ms) as Hstep.
  replace (start + 4 * Z.of_nat 0) with start in Hstep by lia.
  rewrite Hstep. cbn [mbind result_bind]. apply IH.
  intros k Hk. specialize (Hquiet (S k) ltac:(lia)).
  by replace (start + 4 + 4 * Z.of_nat k) with (start + 4 * Z.of_nat (S k)) by lia.
Qed.
End ScanLoop.

(** ** The scan of [patch_binary] *)

Lemma scan_unfold (data : bytes) :
  scan data =
  scan_loop the_targets (mkScan data [])
            (py_range 4 (Z.of_nat (length data) - 3) 4).
Proof. unfold scan. by rewrite build_targets_table. Qed.

(** The scan returns on every buffer, with the invariant at the end of the
    loop. *)
Lemma scan_run (data : bytes) :
  exists (n : nat) st,
    py_range 4 (Z.of_nat (length data) - 3) 4 = range_from 4 4 n /\
    ((0 < n)%nat -> 4 + 4 * Z.of_nat n <= Z.of_nat (length data)) /\
    scan data = Ok st /\
    scan_inv the_targets data (4 + 4 * Z.of_nat n) st.
Proof.
  destruct (scan_loop_run the_targets data) as (n & st & Hrange & Hn & Hrun & Hinv).
  exists n, st. rewrite scan_unfold, Hrange. done.
Qed.

(** The word written over a trap is not a trap, not a load into x8, not a
    branch and not an anchor. *)
Lemma MOVN_X0_37_opaque :
  MOVN_X0_37 <> SVC_0 /\
  the_targets !! MOVN_X0_37 = None /\
  exists insn, unpack_u32_le MOVN_X0_37 = Ok insn /\
               is_movz_x8 insn = false /\ is_branch insn = false.
Proof.
  split; [discriminate|]. split.
  - apply the_targets_lookup_None. split; discriminate.
  - eexists. split; [reflexivity|]. split; reflexivity.
Qed.

(** [svc #0] is not an anchor. *)
Lemma SVC_0_not_target : the_targets !! SVC_0 = None.
Proof. apply the_targets_lookup_None. split; discriminate. Qed.

(** A scan of the buffer produced by a scan finds nothing and changes
    nothing: each step reads no further than its own word, and the words up
    to there are final once the loop has passed them. *)
Lemma scan_rescan (data : bytes) st :
  scan data = Ok st -> scan (st_data st) = Ok (mkScan (st_data st) []).
Proof.
  intros Hscan.
  destruct (scan_run data) as (n & st' & Hrange & _ & Hscan' & Hinv).
  rewrite Hscan in Hscan'. injection Hscan' as <-.
  rewrite scan_unfold, (inv_length _ _ _ _ Hinv), Hrange.
  apply scan_loop_quiet. intros k Hk.
  apply (inv_quiet _ _ _ _ Hinv); [lia|]. Z.div_mod_to_equations. lia.
Qed.

(** C5: the buffer transform is idempotent. The scan returns on every
    buffer; run again on the buffer it produced, it finds zero matches and
    returns that buffer unchanged. The word it wrote is not a syscall trap,
    not a load into register 8, not a recognised branch and not an anchor. *)
Theorem scan_idempotent (data : bytes) :
  exists st,
    scan data = Ok st /\
    scan (st_data st) = Ok (mkScan (st_data st) []) /\
    MOVN_X0_37 <> SVC_0 /\
    the_targets !! MOVN_X0_37 = None /\
    exists insn, unpack_u32_le MOVN_X0_37 = Ok insn /\
                 is_movz_x8 insn = false /\ is_branch insn = false.
Proof.
  destruct (scan_run data) as (n & st & _ & _ & Hscan & _).
  exists st. split; [done|]. split; [by apply (scan_rescan data)|].
  apply MOVN_X0_37_opaque.
Qed.

(** The anchor of a recorded match is not the trap of another one: both
    offsets are multiples of four, and the word at an anchor is in the table
    while the word at a trap is not. *)
Lemma anchor_not_in_trap (data : bytes) (o : Z) (st : scan_state) (m m' : MatchRecord) (i : nat) :
  scan_inv the_targets data o st ->
  m ∈ st_matches st -> m' ∈ st_matches st ->
  anchor_offset m <= Z.of_nat i < anchor_offset m + 4 ->
  ~ (trap_offset m' <= Z.of_nat i < trap_offset m' + 4).
Proof.
  intros Hinv Hm Hm' Hi Hi'.
  pose proof (inv_matches _ _ _ _ Hinv) as Hall. rewrite Forall_forall in Hall.
  destruct (Hall m Hm) as [_ _ Hal _ Hanchor _ Hword _ _].
  destruct (Hall m' Hm') as [_ _ Hal' _ _ _ _ _ Hafter].
  assert (anchor_offset m = trap_offset m') as Heq
    by (Z.div_mod_to_equations; lia).
  rewrite Heq, Hafter in Hword.
  destruct MOVN_X0_37_opaque as (_ & Hnone & _). congruence.
Qed.

(** C6: the scan returns on every buffer, the buffer it produces has the
    length of the input, every byte outside the four-byte words at the
    recorded trap offsets is the byte of the input, every recorded trap held
    [svc #0] in the input and holds the fail-with-ENOSYS word afterwards, and
    the word at every recorded anchor offset is the one of the input. *)
Theorem scan_frame (data : bytes) :
  exists st,
    scan data = Ok st /\
    length (st_data st) = length data /\
    (forall i : nat,
       (forall m, m ∈ st_matches st ->
                  ~ (trap_offset m <= Z.of_nat i < trap_offset m + 4)) ->
       st_data st !! i = data !! i) /\
    (forall m, m ∈ st_matches st ->
       4 <= trap_offset m /\
       trap_offset m + 4 <= Z.of_nat (length data) /\
       slice data (trap_offset m) (trap_offset m + 4) = SVC_0 /\
       slice (st_data st) (trap_offset m) (trap_offset m + 4) = MOVN_X0_37 /\
       slice (st_data st) (anchor_offset m) (anchor_offset m + 4)
         = slice data (anchor_offset m) (anchor_offset m + 4)).
Proof.
  destruct (scan_run data) as (n & st & Hrange & Hn & Hscan & Hinv).
  exists st. split; [done|]. split; [apply (inv_length _ _ _ _ Hinv)|].
  split; [apply (inv_frame _ _ _ _ Hinv)|].
  intros m Hm.
  pose proof (inv_matches _ _ _ _ Hinv) as Hall. rewrite Forall_forall in Hall.
  destruct (Hall m Hm) as [Hlo Hhi _ _ _ Hanchor0 _ Hbefore Hafter].
  split; [done|]. split; [lia|]. split; [done|]. split; [done|].
  apply slice_ext; [done|]. intros i Hi.
  apply (inv_frame _ _ _ _ Hinv). intros m' Hm'.
  exact (anchor_not_in_trap data _ st m m' i Hinv Hm Hm' Hi).
Qed.

(** C7, as the scan does it: two traps can share one anchor. With the
    anchor followed by two traps, the first trap is patched, the word written
    over it is skipped by the search from the second trap, and both matches
    record the anchor at offset 0. *)
Lemma anchor_shared_by_two_traps :
  scan (MOV_X8_99 ++ SVC_0 ++ SVC_0) =
    Ok (mkScan (MOV_X8_99 ++ MOVN_X0_37 ++ MOVN_X0_37)
               [ mkMatch 4 0 1 99 "set_robust_list";
                 mkMatch 8 0 2 99 "set_robust_list" ]) /\
  anchor_offset (mkMatch 4 0 1 99 "set_robust_list")
    = anchor_offset (mkMatch 8 0 2 99 "set_robust_list") /\
  trap_offset (mkMatch 4 0 1 99 "set_robust_list")
    <> trap_offset (mkMatch 8 0 2 99 "set_robust_list").
Proof. split; [vm_compute; reflexivity|]. split; [reflexivity|discriminate]. Qed.

Lemma NoDup_fmap_elem_inj {A B : Type} (f : A -> B) (l : list A) (x y : A) :
  NoDup (f <$> l) -> x ∈ l -> y ∈ l -> f x = f y -> x = y.
Proof.
  intros Hnd Hx Hy Hxy.
  apply list_elem_of_lookup in Hx as [i Hi]. apply list_elem_of_lookup in Hy as [j Hj].
  rewrite NoDup_alt in Hnd.
  assert (i = j) as ->.
  { apply (Hnd i j (f x)); rewrite list_lookup_fmap.
    - by rewrite Hi.
    - by rewrite Hj, Hxy. }
  congruence.
Qed.

(** C7, amended: the scan returns on every buffer; no two of its matches
    share a trap offset, every match lies between 1 and 16 instructions
    after its anchor, and therefore at most 16 matches share one anchor
    offset. *)
Theorem scan_matches_per_anchor (data : bytes) :
  exists st,
    scan data = Ok st /\
    NoDup (trap_offset <$> st_matches st) /\
    (forall m, m ∈ st_matches st ->
       1 <= distance m <= 16 /\
       trap_offset m = anchor_offset m + 4 * distance m) /\
    (forall a : Z,
       (length (filter (fun m => anchor_offset m = a) (st_matches st)) <= 16)%nat).
Proof.
  destruct (scan_run data) as (n & st & _ & _ & Hscan & Hinv).
  exists st. split; [done|].
  pose proof (increasing_NoDup _ (inv_sorted _ _ _ _ Hinv)) as Hnd.
  pose proof (inv_matches _ _ _ _ Hinv) as Hall. rewrite Forall_forall in Hall.
  assert (Hdist : forall m, m ∈ st_matches st ->
            1 <= distance m <= 16 /\
            trap_offset m = anchor_offset m + 4 * distance m).
  { intros m Hm. destruct (Hall m Hm) as [_ _ _ Hd Ha _ _ _ _]. lia. }
  split; [done|]. split; [done|]. intros a.
  set (l := filter (fun m => anchor_offset m = a) (st_matches st)).
  assert (Hl : forall m, m ∈ l -> anchor_offset m = a /\ m ∈ st_matches st).
  { intros m Hm. by apply list_elem_of_filter in Hm. }
  rewrite <- (length_fmap distance l).
  change 16%nat with (Z.to_nat 16). rewrite <- (length_seqZ 1 16).
  apply submseteq_length, NoDup_submseteq.
  - apply NoDup_fmap_2_strong.
    + intros x y Hx Hy Hxy.
      destruct (Hl x Hx) as [Hax Hx'], (Hl y Hy) as [Hay Hy'].
      apply (NoDup_fmap_elem_inj trap_offset (st_matches st)); try done.
      destruct (Hdist x Hx') as [_ ->], (Hdist y Hy') as [_ ->]. lia.
    + apply NoDup_filter. by eapply NoDup_fmap_1.
  - intros d Hd. apply list_elem_of_fmap in Hd as (m & -> & Hm).
    apply elem_of_seqZ. destruct (Hl m Hm) as [_ Hm']. destruct (Hdist m Hm'). lia.
Qed.

(** ** [patch_binary] and [main] of the instruction patcher *)

Lemma backup_path_fresh (filepath : string) :
  (filepath +:+ ".orig")%string <> filepath.
Proof.
  induction filepath as [|c s IH]; [discriminate|].
  intros Heq. apply IH. by injection Heq.
Qed.

Lemma patch_binary_unpatched (fs : filesystem) (filepath : string) data st :
  fs !! filepath = Some data ->
  scan data = Ok st ->
  st_matches st = [] ->
  patch_binary fs filepath = Ok (fs, false, []).
Proof.
  intros Hfile Hscan Hms. unfold patch_binary, read_file.
  rewrite Hfile. cbn [mbind result_bind]. rewrite Hscan. cbn [mbind result_bind].
  unfold total_patches. rewrite Hms. by rewrite decide_True.
Qed.

Lemma patch_binary_patched (fs : filesystem) (filepath : string) data st :
  fs !! filepath = Some data ->
  scan data = Ok st ->
  st_matches st <> [] ->
  patch_binary fs filepath =
    Ok (<[filepath := st_data st]>
          (match fs !! (filepath +:+ ".orig")%string with
           | Some _ => fs
           | None => <[(filepath +:+ ".orig")%string := data]> fs
           end),
        true, st_matches st).
Proof.
  intros Hfile Hscan Hms. unfold patch_binary, read_file, write_file.
  rewrite Hfile. cbn [mbind result_bind]. rewrite Hscan. cbn [mbind result_bind].
  unfold total_patches. rewrite decide_False; [done|].
  destruct (st_matches st); [done|]. simpl. lia.
Qed.

(** C8: when the scan of a file finds zero matches, [patch_binary] returns
    [False] with the file system exactly as it was, so neither the file nor
    any backup path is written, and [main] ends normally with
    [any_patched] false. *)
Theorem no_match_no_write (fs : filesystem) (prog filepath : string) data st :
  fs !! filepath = Some data ->
  scan data = Ok st ->
  st_matches st = [] ->
  patch_binary fs filepath = Ok (fs, false, []) /\
  main fs [prog; filepath] = Ok (fs, false).
Proof.
  intros Hfile Hscan Hms.
  pose proof (patch_binary_unpatched fs filepath data st Hfile Hscan Hms) as Hpatch.
  split; [done|]. unfold main. rewrite decide_False by (simpl; lia).
  cbn [drop main_loop]. rewrite Hfile, Hpatch. done.
Qed.

Lemma no_match_no_write_witness :
  patch_binary {[ "libc.so.6"%string := SVC_0 ++ SVC_0 ]} "libc.so.6"
    = Ok ({[ "libc.so.6"%string := SVC_0 ++ SVC_0 ]}, false, []) /\
  main {[ "libc.so.6"%string := SVC_0 ++ SVC_0 ]} ["patch_glibc_seccomp.py"%string; "libc.so.6"%string]
    = Ok ({[ "libc.so.6"%string := SVC_0 ++ SVC_0 ]}, false).
Proof.
  apply (no_match_no_write _ _ _ (SVC_0 ++ SVC_0) (mkScan (SVC_0 ++ SVC_0) [])).
  - vm_compute. reflexivity.
  - vm_compute. reflexivity.
  - reflexivity.
Defined.

(** ** Buffers made of instruction words *)

Lemma is_filler_spec (w : bytes) :
  is_filler w = true ->
  length w = 4%nat /\ w <> SVC_0 /\ the_targets !! w = None /\
  exists insn, unpack_u32_le w = Ok insn /\
               is_movz_x8 insn = false /\ is_branch insn = false.
Proof.
  unfold is_filler. rewrite !andb_true_iff, !negb_true_iff.
  intros [[[Hlen Hsvc] Hload] Hbranch].
  apply bool_decide_eq_true in Hlen. apply bool_decide_eq_false in Hsvc.
  split; [done|]. split; [done|]. split.
  - apply the_targets_lookup_None. split; intros ->; discriminate.
  - unfold is_load_x8, is_branch_word in *.
    destruct (unpack_total w Hlen) as (insn & Hinsn & _). rewrite Hinsn in *.
    by exists insn.
Qed.

Lemma length_concat_words (words : list bytes) :
  Forall (fun w => length w = 4%nat) words ->
  Z.of_nat (length (concat words)) = 4 * Z.of_nat (length words).
Proof.
  induction 1 as [|w words Hw _ IH]; [done|].
  cbn [concat]. rewrite length_app, length_cons. lia.
Qed.

(** The word at index [k] of a buffer of four-byte words is read at offset
    [4 * k]. *)
Lemma slice_concat_word (words : list bytes) (k : nat) (w : bytes) :
  Forall (fun w => length w = 4%nat) words ->
  words !! k = Some w ->
  slice (concat words) (4 * Z.of_nat k) (4 * Z.of_nat k + 4) = w.
Proof.
  intros Hall. revert k. induction Hall as [|w0 words Hw0 _ IH]; intros k Hk.
  - by rewrite lookup_nil in Hk.
  - unfold slice in *. destruct k as [|k]; cbn [concat].
    + injection Hk as ->.
      replace (Z.to_nat (4 * Z.of_nat 0 + 4 - 4 * Z.of_nat 0)) with (length w) by lia.
      replace (Z.to_nat (4 * Z.of_nat 0)) with O by lia.
      rewrite drop_0. apply take_app_length.
    + rewrite lookup_cons in Hk. specialize (IH k Hk).
      rewrite drop_app_ge by lia.
      replace (Z.to_nat (4 * Z.of_nat (S k)) - length w0)%nat
        with (Z.to_nat (4 * Z.of_nat k)) by lia.
      etrans; [|exact IH]. f_equal. lia.
Qed.

Lemma range_from_snoc (start step : Z) (n : nat) :
  range_from start step (S n) =
  range_from start step n ++ [start + step * Z.of_nat n].
Proof.
  revert start. induction n as [|n IH]; intros start.
  - simpl. f_equal. lia.
  - change (range_from start step (S (S n)))
      with (start :: range_from (start + step) step (S n)).
    rewrite IH. cbn [range_from app]. do 3 f_equal. lia.
Qed.

Lemma scan_loop_app targets st (l1 l2 : list Z) :
  scan_loop targets st (l1 ++ l2) =
  st' ← scan_loop targets st l1; scan_loop targets st' l2.
Proof.
  revert st. induction l1 as [|o l1 IH]; intros st; [done|].
  cbn [app scan_loop]. destruct (scan_step targets st o); cbn [mbind result_bind]; [|done].
  apply IH.
Qed.

(** The search walks back over words that stop nothing and returns the
    first anchor it meets. *)
Lemma lookback_reaches targets (data : bytes) (o d nr : Z) (name : string) (n : nat) :
  forall b : Z,
    1 <= b <= d -> d < b + Z.of_nat n -> 0 <= o - d * 4 ->
    (forall j, b <= j < d ->
       targets !! slice data (o - j * 4) (o - j * 4 + 4) = None /\
       exists insn, unpack_u32_le (slice data (o - j * 4) (o - j * 4 + 4)) = Ok insn /\
                    is_movz_x8 insn = false /\ is_branch insn = false) ->
    targets !! slice data (o - d * 4) (o - d * 4 + 4) = Some (nr, name) ->
    lookback targets data o (range_from b 1 n) = Ok (Found (mkMatch o (o - d * 4) d nr name)).
Proof.
  induction n as [|n IH]; intros b Hb Hd Hpos Hskip Hword; [lia|].
  cbn [range_from]. rewrite lookback_cons.
  destruct (decide (b = d)) as [->|Hne].
  - rewrite decide_False by lia. by rewrite Hword.
  - destruct (Hskip b ltac:(lia)) as (Hnone & insn & Hinsn & Hmovz & Hbr).
    rewrite decide_False by lia. rewrite Hnone, Hinsn. cbn [mbind result_bind].
    rewrite Hmovz, Hbr. apply IH; try lia; [|done].
    intros j Hj. apply Hskip. lia.
Qed.

Lemma set_slice_last (pre w v : bytes) (lo hi : Z) :
  lo = Z.of_nat (length pre) -> hi = lo + Z.of_nat (length w) ->
  set_slice (pre ++ w) lo hi v = pre ++ v.
Proof.
  intros -> ->. unfold set_slice.
  rewrite take_app_length' by lia.
  rewrite drop_ge by (rewrite length_app; lia). by rewrite app_nil_r.
Qed.

(** C1, as the scan does it: (1) with 16 filler words the anchor is the
    seventeenth word before the trap, out of the reach of the 16 steps of the
    search, and there is no match; (2) a filler that is itself [svc #0] is
    neither a branch nor a load, and is matched too, which gives two matches;
    (3) a filler that is itself the load of 99 becomes the anchor of the
    match, at offset 4 instead of 0. *)
Lemma sixteen_fillers_no_match :
  (Forall (fun w => is_filler w = true) (replicate 16 NOP) /\
   scan (MOV_X8_99 ++ concat (replicate 16 NOP) ++ SVC_0) =
     Ok (mkScan (MOV_X8_99 ++ concat (replicate 16 NOP) ++ SVC_0) [])) /\
  (is_branch_word SVC_0 = false /\ is_load_x8 SVC_0 = false /\
   scan (MOV_X8_99 ++ concat [SVC_0] ++ SVC_0) =
     Ok (mkScan (MOV_X8_99 ++ MOVN_X0_37 ++ MOVN_X0_37)
                [ mkMatch 4 0 1 99 "set_robust_list";
                  mkMatch 8 0 2 99 "set_robust_list" ])) /\
  (is_branch_word MOV_X8_99 = false /\
   encode_movz_x8 99 = Ok MOV_X8_99 /\
   scan (MOV_X8_99 ++ concat [MOV_X8_99] ++ SVC_0) =
     Ok (mkScan (MOV_X8_99 ++ MOV_X8_99 ++ MOVN_X0_37)
                [ mkMatch 8 4 1 99 "set_robust_list" ])).
Proof.
  split; [split|split].
  - repeat constructor.
  - vm_compute. reflexivity.
  - repeat split; vm_compute; reflexivity.
  - repeat split; vm_compute; reflexivity.
Qed.

(** C1, amended: for every buffer made of the load of 99 into x8, then
    between 0 and 15 filler words, none of which is [svc #0], a load into x8
    or a recognised branch, then [svc #0], the scan returns exactly one
    match: the trap, the anchor at offset 0, their distance (the number of
    fillers plus one, so 1 to 16) and the name of syscall 99; and the trap is
    the only word rewritten. *)
Theorem anchor_then_trap (fillers : list bytes) :
  (length fillers <= 15)%nat ->
  Forall (fun w => is_filler w = true) fillers ->
  scan (MOV_X8_99 ++ concat fillers ++ SVC_0) =
    Ok (mkScan (MOV_X8_99 ++ concat fillers ++ MOVN_X0_37)
               [ mkMatch (4 * (Z.of_nat (length fillers) + 1)) 0
                         (Z.of_nat (length fillers) + 1) 99 "set_robust_list" ]).
Proof.
  intros Hgap Hfillers. set (g := length fillers) in *.
  set (words := MOV_X8_99 :: fillers ++ [SVC_0]).
  assert (Hbuf : MOV_X8_99 ++ concat fillers ++ SVC_0 = concat words).
  { unfold words. cbn [concat]. rewrite concat_app. cbn [concat].
    by rewrite app_nil_r. }
  assert (Hwords : Forall (fun w => length w = 4%nat) words).
  { unfold words. constructor; [done|]. apply Forall_app. split.
    - eapply Forall_impl; [exact Hfillers|]. intros w Hw.
      by destruct (is_filler_spec w Hw).
    - by constructor. }
  assert (Hlen : Z.of_nat (length (concat words)) = 4 * (Z.of_nat g + 2)).
  { rewrite length_concat_words by done. unfold words.
    rewrite length_cons, length_app, length_cons. simpl. lia. }
  assert (Hfiller : forall k : nat, (k < g)%nat ->
            exists w, is_filler w = true /\
              slice (concat words) (4 + 4 * Z.of_nat k) (4 + 4 * Z.of_nat k + 4) = w).
  { intros k Hk. destruct (lookup_lt_is_Some_2 fillers k Hk) as [w Hw].
    exists w. split; [exact (Forall_lookup_1 _ _ _ _ Hfillers Hw)|].
    replace (4 + 4 * Z.of_nat k) with (4 * Z.of_nat (S k)) by lia.
    apply slice_concat_word; [done|]. unfold words.
    rewrite lookup_cons. by apply lookup_app_l_Some. }
  rewrite Hbuf, scan_unfold. unfold py_range.
  replace (Z.to_nat ((Z.of_nat (length (concat words)) - 3 - 4 + 4 - 1) / 4))
    with (S g) by (rewrite Hlen; Z.div_mod_to_equations; lia).
  rewrite range_from_snoc, scan_loop_app, scan_loop_quiet.
  2:{ intros k Hk. destruct (Hfiller k Hk) as (w & Hw & Hslice).
      apply quiet_no_trap. rewrite Hslice.
      by destruct (is_filler_spec w Hw) as (_ & ? & _). }
  cbn [mbind result_bind scan_loop]. unfold scan_step. cbn [st_data st_matches].
  assert (Htrap : slice (concat words) (4 + 4 * Z.of_nat g) (4 + 4 * Z.of_nat g + 4) = SVC_0).
  { replace (4 + 4 * Z.of_nat g) with (4 * Z.of_nat (S g)) by lia.
    apply slice_concat_word; [done|]. unfold words.
    rewrite lookup_cons, lookup_app_r by done.
    by replace (g - length fillers)%nat with O by (unfold g; lia). }
  rewrite decide_True by done.
  change (py_range 1 (LOOKBACK + 1) 1) with (range_from 1 1 16).
  rewrite (lookback_reaches the_targets (concat words) (4 + 4 * Z.of_nat g)
             (Z.of_nat g + 1) 99 "set_robust_list" 16 1); try lia.
  - cbn [mbind result_bind app]. do 2 f_equal.
    + rewrite <- Hbuf, !(assoc_L (++)).
      apply set_slice_last; [|done].
      rewrite length_app. unfold g.
      assert (Hl : Z.of_nat (length (concat fillers)) = 4 * Z.of_nat (length fillers)).
      { apply length_concat_words.
        eapply Forall_impl; [exact Hfillers|]. intros w Hw.
        by destruct (is_filler_spec w Hw). }
      simpl. lia.
    + f_equal. f_equal; lia.
  - intros j Hj.
    destruct (Hfiller (Z.to_nat (Z.of_nat g - j)) ltac:(lia)) as (w & Hw & Hslice).
    replace (4 + 4 * Z.of_nat (Z.to_nat (Z.of_nat g - j)))
      with (4 + 4 * Z.of_nat g - j * 4) in Hslice by lia.
    rewrite Hslice. destruct (is_filler_spec w Hw) as (_ & _ & ? & ?). done.
  - replace (4 + 4 * Z.of_nat g - (Z.of_nat g + 1) * 4) with (4 * Z.of_nat 0) by lia.
    rewrite (slice_concat_word words 0 MOV_X8_99) by done.
    apply the_targets_lookup. by right.
Qed.

Lemma anchor_then_trap_witness :
  scan (MOV_X8_99 ++ concat [NOP; NOP; NOP] ++ SVC_0) =
    Ok (mkScan (MOV_X8_99 ++ concat [NOP; NOP; NOP] ++ MOVN_X0_37)
               [ mkMatch 16 0 4 99 "set_robust_list" ]).
Proof.
  apply (anchor_then_trap [NOP; NOP; NOP]).
  - simpl. lia.
  - repeat constructor.
Defined.

(** ** The branch test and [ret] *)

(** The six bits left by [insn >> 26] never make 0x6B. *)
Lemma shiftr_26_small (insn : Z) :
  0 <= insn < 2 ^ 32 -> 0 <= Z.shiftr insn 26 < 64.
Proof.
  intros Hinsn. rewrite Z.shiftr_div_pow2 by lia.
  change (2 ^ 26) with 67108864. change (2 ^ 32) with 4294967296 in Hinsn.
  Z.div_mod_to_equations. lia.
Qed.

(** C2, at the input on which the scan departs from it: [ret] is not
    recognised by the branch test, whose third value 0x6B cannot be met by
    the six bits of [insn >> 26]; with [ret] between the anchor and the trap
    the search goes past it, finds the anchor, and the trap is patched. *)
Theorem ret_does_not_stop_search :
  unpack_u32_le RET = Ok 0xD65F03C0 /\
  is_branch 0xD65F03C0 = false /\
  Z.shiftr 0xD65F03C0 25 = 0x6B /\
  (forall insn, 0 <= insn < 2 ^ 32 -> Z.shiftr insn 26 <> 0x6B) /\
  scan (MOV_X8_99 ++ RET ++ SVC_0) =
    Ok (mkScan (MOV_X8_99 ++ RET ++ MOVN_X0_37)
               [ mkMatch 8 0 2 99 "set_robust_list" ]).
Proof.
  split; [reflexivity|]. split; [reflexivity|]. split; [reflexivity|]. split.
  - intros insn Hinsn. pose proof (shiftr_26_small insn Hinsn). lia.
  - vm_compute. reflexivity.
Qed.

(** ** The encoder of the anchors *)

Lemma land_imm16 (imm16 : Z) : 0 <= imm16 < 2 ^ 16 -> Z.land imm16 0xFFFF = imm16.
Proof.
  intros Himm. change 0xFFFF with (Z.ones 16).
  rewrite Z.land_ones by lia. by apply Z.mod_small.
Qed.

(** The immediate shifted into place only has bits 5 to 20, so a mask acts
    on it through these bits alone. *)
Lemma land_imm16_field (imm16 mask : Z) :
  0 <= imm16 < 2 ^ 16 ->
  Z.land (Z.shiftl imm16 5) mask = Z.land (Z.shiftl imm16 5) (Z.land 0x1FFFE0 mask).
Proof.
  intros Himm. rewrite <- (land_imm16 imm16 Himm) at 1.
  rewrite Z.shiftl_land. change (Z.shiftl 0xFFFF 5) with 0x1FFFE0.
  by rewrite <- Z.land_assoc.
Qed.

(** The word fits 32 bits, passes the mask test of the search, and gives
    the immediate back from bits 5 to 20. *)
Lemma movz_x8_word_fields (imm16 : Z) :
  0 <= imm16 < 2 ^ 16 ->
  0 <= movz_x8_word imm16 < 2 ^ 32 /\
  Z.land (movz_x8_word imm16) 0xFFE0001F = 0xD2800008 /\
  Z.land (Z.shiftr (movz_x8_word imm16) 5) 0xFFFF = imm16.
Proof.
  intros Himm. unfold movz_x8_word. split; [|split].
  - assert (Z.land (Z.lor (Z.lor (Z.shiftl 0x694 21) (Z.shiftl imm16 5)) 8) (Z.ones 32)
            = Z.lor (Z.lor (Z.shiftl 0x694 21) (Z.shiftl imm16 5)) 8) as Hfit.
    { rewrite !Z.land_lor_distr_l, (land_imm16_field imm16 _ Himm).
      change (Z.land 0x1FFFE0 (Z.ones 32)) with (Z.land 0x1FFFE0 (-1)).
      rewrite <- (land_imm16_field imm16 _ Himm), Z.land_m1_r. reflexivity. }
    rewrite Z.land_ones in Hfit by lia. rewrite <- Hfit.
    apply Z.mod_pos_bound. lia.
  - rewrite !Z.land_lor_distr_l, (land_imm16_field imm16 _ Himm).
    change (Z.land 0x1FFFE0 0xFFE0001F) with 0. rewrite Z.land_0_r. reflexivity.
  - rewrite !Z.shiftr_lor, (Z.shiftr_shiftl_l imm16 5 5) by lia.
    change (5 - 5) with 0. rewrite Z.shiftl_0_r.
    rewrite !Z.land_lor_distr_l, (land_imm16 imm16 Himm).
    change (Z.land (Z.shiftr (Z.shiftl 0x694 21) 5) 0xFFFF) with 0.
    change (Z.land (Z.shiftr 8 5) 0xFFFF) with 0.
    by rewrite Z.lor_0_l, Z.lor_0_r.
Qed.

(** C10: for every 16-bit immediate, [encode_movz_x8] returns a word that
    passes the mask test of the different-load sentinel and carries the
    immediate in bits 5 to 20. Hence every anchor of the table passes the
    sentinel test as well, and the search returns a match at an anchor
    only because it looks the word up in the table before that test. *)
Theorem encode_movz_x8_is_sentinel (imm16 : Z) :
  0 <= imm16 < 2 ^ 16 ->
  (exists w insn,
     encode_movz_x8 imm16 = Ok w /\
     unpack_u32_le w = Ok insn /\
     Z.land insn 0xFFE0001F = 0xD2800008 /\
     Z.land (Z.shiftr insn 5) 0xFFFF = imm16) /\
  (forall w nr name,
     the_targets !! w = Some (nr, name) ->
     is_load_x8 w = true /\
     forall data offset back rest,
       0 <= offset - back * 4 ->
       slice data (offset - back * 4) (offset - back * 4 + 4) = w ->
       lookback the_targets data offset (back :: rest)
         = Ok (Found (mkMatch offset (offset - back * 4) back nr name))).
Proof.
  intros Himm. split.
  - destruct (movz_x8_word_fields imm16 Himm) as (Hrange & Hmask & Hfield).
    destruct (unpack_pack (movz_x8_word imm16) Hrange) as (w & Hpack & _ & Hunpack).
    by exists w, (movz_x8_word imm16).
  - intros w nr name Hw. split.
    + apply the_targets_lookup in Hw as [[-> _]|[-> _]]; reflexivity.
    + intros data offset back rest Hoff Hslice.
      rewrite lookback_cons, decide_False by lia. by rewrite Hslice, Hw.
Qed.

Lemma encode_movz_x8_is_sentinel_witness :
  (exists w insn,
     encode_movz_x8 99 = Ok w /\
     unpack_u32_le w = Ok insn /\
     Z.land insn 0xFFE0001F = 0xD2800008 /\
     Z.land (Z.shiftr insn 5) 0xFFFF = 99) /\
  (forall w nr name,
     the_targets !! w = Some (nr, name) ->
     is_load_x8 w = true /\
     forall data offset back rest,
       0 <= offset - back * 4 ->
       slice data (offset - back * 4) (offset - back * 4 + 4) = w ->
       lookback the_targets data offset (back :: rest)
         = Ok (Found (mkMatch offset (offset - back * 4) back nr name))).
Proof. apply (encode_movz_x8_is_sentinel 99). lia. Defined.

(** ** The substring patcher *)

Section Replace.
Import Vortek.
Implicit Types (data old new pre post rest out : bytes).

Lemma occurs_nil data : occurs [] data.
Proof. by exists [], data. Qed.

Lemma occurs_cons old b rest :
  occurs old (b :: rest) <-> old `prefix_of` (b :: rest) \/ occurs old rest.
Proof.
  split.
  - intros ([|b' pre] & post & Heq).
    + left. by exists post.
    + right. injection Heq as _ ->. by exists pre, post.
  - intros [[post ->]|(pre & post & ->)].
    + by exists [], post.
    + by exists (b :: pre), post.
Qed.

Lemma not_occurs_empty old : old <> [] -> ~ occurs old [].
Proof.
  intros Hold (pre & post & Heq). symmetry in Heq.
  apply app_eq_nil in Heq as [_ Heq]. by apply app_eq_nil in Heq as [? _].
Qed.

(** Bytes covered by the last occurrence are skipped. *)
Lemma replace_from_skip old new (k : nat) data :
  replace_from old new k data = replace_from old new 0 (drop k data).
Proof.
  revert k. induction data as [|b rest IH]; intros [|k]; try done.
  cbn [replace_from drop]. rewrite IH. by destruct rest.
Qed.

Lemma count_from_skip old (k : nat) data :
  count_from old k data = count_from old 0 (drop k data).
Proof.
  revert k. induction data as [|b rest IH]; intros [|k]; try done.
  cbn [count_from drop]. rewrite IH. by destruct rest.
Qed.

(** The walk of [data.replace(old, new)], one occurrence or one byte at a
    time. *)
Lemma replace_from_cons old new b rest :
  old <> [] ->
  replace_from old new 0 (b :: rest) =
    if decide (old `prefix_of` (b :: rest))
    then new ++ replace_from old new 0 (drop (length old) (b :: rest))
    else b :: replace_from old new 0 rest.
Proof.
  intros Hold. cbn [replace_from]. case_decide; [|done].
  rewrite replace_from_skip. destruct old as [|o old']; [done|].
  by replace (length (o :: old') - 1)%nat with (length old') by (simpl; lia).
Qed.

Lemma count_from_cons old b rest :
  old <> [] ->
  count_from old 0 (b :: rest) =
    if decide (old `prefix_of` (b :: rest))
    then S (count_from old 0 (drop (length old) (b :: rest)))
    else count_from old 0 rest.
Proof.
  intros Hold. cbn [count_from]. case_decide; [|done].
  rewrite count_from_skip. destruct old as [|o old']; [done|].
  by replace (length (o :: old') - 1)%nat with (length old') by (simpl; lia).
Qed.

Lemma count_from_zero old data :
  old <> [] -> (count_from old 0 data = O <-> ~ occurs old data).
Proof.
  intros Hold. induction data as [|b rest IH].
  - split; [intros _; by apply not_occurs_empty | done].
  - rewrite count_from_cons, occurs_cons by done. case_decide as Hpre.
    + split; [done|]. intros Hno. exfalso. apply Hno. by left.
    + rewrite IH. tauto.
Qed.

(** [data.count(old)] is zero exactly when [old] does not occur. *)
Lemma bytes_count_zero data old : bytes_count data old = 0 <-> ~ occurs old data.
Proof.
  destruct old as [|o old'].
  - cbn [bytes_count]. split; [lia|]. intros Hno. exfalso. apply Hno, occurs_nil.
  - cbn [bytes_count]. rewrite <- count_from_zero by done. lia.
Qed.

Lemma replace_from_absent old new data :
  old <> [] -> ~ occurs old data -> replace_from old new 0 data = data.
Proof.
  intros Hold. induction data as [|b rest IH]; [done|].
  rewrite occurs_cons, replace_from_cons by done. intros Hno.
  rewrite decide_False by tauto. f_equal. apply IH. tauto.
Qed.
End Replace.

Section ReplaceSpec.
Import Vortek.
Context (old padded : bytes) (Hold : old <> []).

Lemma replaced_fixed_cons (b : byte) (rest out : bytes) :
  ~ old `prefix_of` (b :: rest) ->
  replaced_fixed old padded rest out ->
  replaced_fixed old padded (b :: rest) (b :: out).
Proof.
  intros Hpre Hrest. inversion Hrest as [data Hno|pre rest' out' Hfirst Hrest']; subst.
  - apply replaced_done. rewrite occurs_cons. tauto.
  - apply (replaced_next old padded (b :: pre) rest' out'); [|done].
    intros [|b' pre'] post' Heq.
    + exfalso. apply Hpre. exists post'. exact Heq.
    + injection Heq as _ Heq. specialize (Hfirst _ _ Heq). simpl. lia.
Qed.

(** [data.replace(old, padded)] does what the contract says. *)
Lemma replace_from_spec (data : bytes) :
  replaced_fixed old padded data (replace_from old padded 0 data).
Proof.
  remember (length data) as n eqn:Hn. revert data Hn.
  induction n as [n IH] using lt_wf_ind. intros [|b rest] Hn.
  - apply replaced_done. by apply not_occurs_empty.
  - rewrite replace_from_cons by done. case_decide as Hpre.
    + destruct Hpre as [post Heq]. rewrite Heq, drop_app_length.
      apply (replaced_next old padded [] post).
      * intros pre' post' _. simpl. lia.
      * apply (IH (length post)); [|done].
        apply (f_equal length) in Heq. rewrite length_app in Heq.
        destruct old; [done|]. simpl in *. lia.
    + apply replaced_fixed_cons; [done|].
      apply (IH (length rest)); [|done]. simpl in Hn. lia.
Qed.

Lemma replaced_fixed_length (data out : bytes) :
  length padded = length old ->
  replaced_fixed old padded data out -> length out = length data.
Proof.
  intros Hlen. induction 1 as [|pre rest out _ _ IH]; [done|].
  rewrite !length_app. lia.
Qed.
End ReplaceSpec.

(** C9, as the patcher does it: the report of a replacement prints
    [old.decode()], which raises on bytes that are not UTF-8; no buffer is
    returned. *)
Lemma undecodable_old_raises :
  [xff] <> @nil byte /\ (length (@nil byte) <= length [xff])%nat /\
  Vortek.patch_binary [x61; xff; x62] [xff] [] "RUNPATH" = Raise UnicodeDecodeError.
Proof. split; [discriminate|]. split; [simpl; lia|]. reflexivity. Qed.

(** C9, amended: for every buffer and byte strings [old] and [new] with
    [old] non-empty and [len(new) <= len(old)], both of them valid UTF-8
    unless [old] does not occur in the buffer, [patch_binary] returns a
    buffer in which every exact, non-overlapping occurrence of [old] is
    replaced by [new] right-padded with null bytes to [len(old)], and whose
    length is the length of the input. *)
Theorem patch_binary_replaces (data old new : bytes) (name : string) :
  old <> [] ->
  (length new <= length old)%nat ->
  Vortek.utf8_valid old && Vortek.utf8_valid new = true \/ ~ occurs old data ->
  exists out,
    Vortek.patch_binary data old new name = Ok out /\
    replaced_fixed old (new ++ replicate (length old - length new) x00) data out /\
    length out = length data.
Proof.
  intros Hold Hlen Hvalid. unfold Vortek.patch_binary.
  case_decide as Hcount; [|rewrite bytes_count_zero in Hcount].
  2:{
    destruct Hvalid as [Hvalid|Hno]; [|done].
    rewrite decide_False by lia. rewrite Hvalid.
    replace (Z.to_nat (Z.of_nat (length old) - Z.of_nat (length new)))
      with (length old - length new)%nat by lia.
    eexists. split; [reflexivity|].
    destruct old as [|o old']; [done|]. cbn [Vortek.bytes_replace].
    pose proof (replace_from_spec (o :: old')
      (new ++ replicate (length (o :: old') - length new) x00) Hold data) as Hspec.
    split; [exact Hspec|].
    eapply replaced_fixed_length; [|exact Hspec].
    rewrite length_app, length_replicate. lia. }
  apply bytes_count_zero in Hcount.
  exists data. split; [done|]. split; [by apply replaced_done|done].
Qed.

Lemma patch_binary_replaces_witness :
  exists out,
    Vortek.patch_binary
      ([x61] ++ Vortek.OLD_SOCKET ++ [x00; x62]) Vortek.OLD_SOCKET Vortek.NEW_SOCKET
      "Socket path" = Ok out /\
    replaced_fixed Vortek.OLD_SOCKET
      (Vortek.NEW_SOCKET
       ++ replicate (length Vortek.OLD_SOCKET - length Vortek.NEW_SOCKET) x00)
      ([x61] ++ Vortek.OLD_SOCKET ++ [x00; x62]) out /\
    length out = length ([x61] ++ Vortek.OLD_SOCKET ++ [x00; x62]).
Proof.
  apply patch_binary_replaces.
  - discriminate.
  - vm_compute. lia.
  - left. vm_compute. reflexivity.
Defined.

(** ** The length check of the substring patcher *)

(** C3, as the patcher does it: the length check comes after the early
    return for an [old] that does not occur. With a replacement longer than
    [old] and no occurrence, [patch_binary] returns the buffer instead of
    aborting, and [patch_file] goes on to the second patch and writes the
    file. *)
Lemma absent_old_skips_length_check :
  (length [x63; x64] > length [x62])%nat /\
  Vortek.patch_binary [x61] [x62] [x63; x64] "Socket path" = Ok [x61] /\
  Vortek.patch_file_with [x62] [x63; x64] [x61] [x65]
      {[ "lib.so"%string := [x61] ]} "lib.so"
    = Ok {[ "lib.so"%string := [x65] ]}.
Proof. split; [simpl; lia|]. split; [reflexivity|]. vm_compute. reflexivity. Qed.

Lemma patch_binary_too_long (data old new : bytes) (name : string) :
  (length new > length old)%nat -> occurs old data ->
  Vortek.patch_binary data old new name = Raise (SystemExit 1).
Proof.
  intros Hlen Hocc. unfold Vortek.patch_binary.
  rewrite decide_False by (rewrite bytes_count_zero; tauto).
  by rewrite decide_True by lia.
Qed.

(** Without an occurrence of [old] the length of the replacement is not
    looked at: [patch_binary] returns the buffer it was given. *)
Lemma patch_binary_absent (data old new : bytes) (name : string) :
  ~ occurs old data -> Vortek.patch_binary data old new name = Ok data.
Proof.
  intros Hno. unfold Vortek.patch_binary.
  by rewrite decide_True by (by apply bytes_count_zero).
Qed.

(** C3, amended: when the replacement is strictly longer than the byte
    string it replaces and that string occurs in the buffer, [patch_binary]
    aborts with exit status 1 and returns no buffer; [patch_file], whether
    the offending patch is its first or its second, aborts before its write,
    so the files on disk are those it started from. When the byte string to
    replace does not occur, the length is not checked: whatever the
    replacement, longer or not, [patch_binary] returns the buffer unchanged,
    and [patch_file] goes on to its second patch with that buffer. *)
Theorem longer_replacement_aborts (data old new : bytes) (name : string) :
  ((length new > length old)%nat ->
   occurs old data ->
   Vortek.patch_binary data old new name = Raise (SystemExit 1) /\
   (forall (fs : filesystem) filepath old2 new2,
      fs !! filepath = Some data ->
      Vortek.patch_file_with old new old2 new2 fs filepath = Raise (SystemExit 1) /\
      fs_after fs id (Vortek.patch_file_with old new old2 new2 fs filepath) = fs) /\
   (forall (fs : filesystem) filepath old1 new1 data0,
      fs !! filepath = Some data0 ->
      Vortek.patch_binary data0 old1 new1 "Socket path" = Ok data ->
      Vortek.patch_file_with old1 new1 old new fs filepath = Raise (SystemExit 1) /\
      fs_after fs id (Vortek.patch_file_with old1 new1 old new fs filepath) = fs)) /\
  (~ occurs old data ->
   Vortek.patch_binary data old new name = Ok data /\
   (forall (fs : filesystem) filepath old2 new2,
      fs !! filepath = Some data ->
      Vortek.patch_file_with old new old2 new2 fs filepath =
        match Vortek.patch_binary data old2 new2 "RUNPATH" with
        | Ok data' => Ok (write_file fs filepath data')
        | Raise e => Raise e
        end)).
Proof.
  split.
  - intros Hlen Hocc. split; [by apply patch_binary_too_long|]. split.
    + intros fs filepath old2 new2 Hfile.
      assert (Vortek.patch_file_with old new old2 new2 fs filepath = Raise (SystemExit 1))
        as Hrun.
      { unfold Vortek.patch_file_with, read_file. rewrite Hfile.
        cbn [mbind result_bind]. by rewrite patch_binary_too_long. }
      by rewrite Hrun.
    + intros fs filepath old1 new1 data0 Hfile Hfirst.
      assert (Vortek.patch_file_with old1 new1 old new fs filepath = Raise (SystemExit 1))
        as Hrun.
      { unfold Vortek.patch_file_with, read_file. rewrite Hfile.
        cbn [mbind result_bind]. rewrite Hfirst. cbn [mbind result_bind].
        by rewrite patch_binary_too_long. }
      by rewrite Hrun.
  - intros Hno. split; [by apply patch_binary_absent|].
    intros fs filepath old2 new2 Hfile.
    unfold Vortek.patch_file_with, read_file. rewrite Hfile.
    cbn [mbind result_bind]. rewrite (patch_binary_absent data old new) by done.
    cbn [mbind result_bind]. by destruct (Vortek.patch_binary data old2 new2 "RUNPATH").
Qed.

Lemma longer_replacement_aborts_witness :
  (Vortek.patch_binary ([x61] ++ Vortek.OLD_RUNPATH) Vortek.OLD_RUNPATH
       (Vortek.OLD_RUNPATH ++ [x36; x34]) "RUNPATH" = Raise (SystemExit 1) /\
   (forall (fs : filesystem) filepath old2 new2,
      fs !! filepath = Some ([x61] ++ Vortek.OLD_RUNPATH) ->
      Vortek.patch_file_with Vortek.OLD_RUNPATH (Vortek.OLD_RUNPATH ++ [x36; x34])
        old2 new2 fs filepath = Raise (SystemExit 1) /\
      fs_after fs id
        (Vortek.patch_file_with Vortek.OLD_RUNPATH (Vortek.OLD_RUNPATH ++ [x36; x34])
           old2 new2 fs filepath) = fs) /\
   (forall (fs : filesystem) filepath old1 new1 data0,
      fs !! filepath = Some data0 ->
      Vortek.patch_binary data0 old1 new1 "Socket path" = Ok ([x61] ++ Vortek.OLD_RUNPATH) ->
      Vortek.patch_file_with old1 new1 Vortek.OLD_RUNPATH
        (Vortek.OLD_RUNPATH ++ [x36; x34]) fs filepath = Raise (SystemExit 1) /\
      fs_after fs id
        (Vortek.patch_file_with old1 new1 Vortek.OLD_RUNPATH
           (Vortek.OLD_RUNPATH ++ [x36; x34]) fs filepath) = fs)) /\
  (Vortek.patch_binary [x61] Vortek.OLD_RUNPATH (Vortek.OLD_RUNPATH ++ [x36; x34])
       "RUNPATH" = Ok [x61] /\
   (forall (fs : filesystem) filepath old2 new2,
      fs !! filepath = Some [x61] ->
      Vortek.patch_file_with Vortek.OLD_RUNPATH (Vortek.OLD_RUNPATH ++ [x36; x34])
        old2 new2 fs filepath =
        match Vortek.patch_binary [x61] old2 new2 "RUNPATH" with
        | Ok data' => Ok (write_file fs filepath data')
        | Raise e => Raise e
        end)).
Proof.
  split.
  - apply (proj1 (longer_replacement_aborts ([x61] ++ Vortek.OLD_RUNPATH)
                    Vortek.OLD_RUNPATH (Vortek.OLD_RUNPATH ++ [x36; x34]) "RUNPATH")).
    + rewrite length_app. simpl. lia.
    + by exists [x61], [].
  - apply (proj2 (longer_replacement_aborts [x61]
                    Vortek.OLD_RUNPATH (Vortek.OLD_RUNPATH ++ [x36; x34]) "RUNPATH")).
    apply bytes_count_zero. reflexivity.
Defined.

(** ** Backups *)

(** C4, as the substring patcher does it: [patch_file] writes the patched
    bytes over the file and makes no backup. *)
Lemma substring_patcher_makes_no_backup :
  Vortek.patch_file {[ "libvulkan_vortek.so"%string := Vortek.OLD_SOCKET ]}
                    "libvulkan_vortek.so"
    = Ok {[ "libvulkan_vortek.so"%string := Vortek.NEW_SOCKET ++ replicate 11 x00 ]} /\
  Vortek.NEW_SOCKET ++ replicate 11 x00 <> Vortek.OLD_SOCKET /\
  ({[ "libvulkan_vortek.so"%string := Vortek.NEW_SOCKET ++ replicate 11 x00 ]}
     : filesystem) !! "libvulkan_vortek.so.orig"%string = None.
Proof.
  split; [vm_compute; reflexivity|]. split; [discriminate|]. reflexivity.
Qed.

Lemma patch_file_writes_one_path (fs : filesystem) (filepath : string) :
  fs_after fs id (Vortek.patch_file fs filepath) = fs \/
  exists data', fs_after fs id (Vortek.patch_file fs filepath) = <[filepath := data']> fs.
Proof.
  unfold Vortek.patch_file, Vortek.patch_file_with, read_file, write_file.
  destruct (fs !! filepath) as [data|]; cbn [mbind result_bind]; [|by left].
  destruct (Vortek.patch_binary data _ _ _) as [data1|]; cbn [mbind result_bind];
    [|by left].
  destruct (Vortek.patch_binary data1 _ _ _) as [data2|]; cbn [mbind result_bind];
    [|by left].
  right. by exists data2.
Qed.

(** C4, amended: whenever the instruction patcher overwrites a file (it
    returns [True]), the path with [.orig] appended holds a backup
    afterwards: the bytes read from the file before the patch when no backup
    existed, and the existing backup, left as it was, otherwise; no other
    path changes. The substring path patcher makes no backup: on every file
    system and path, whether it patches, finds nothing or raises, it leaves
    the [.orig] path as it was, absent when it was absent. *)
Theorem backup_policy (fs : filesystem) (filepath : string) :
  (forall (fs' : filesystem) ms,
     patch_binary fs filepath = Ok (fs', true, ms) ->
     exists data st,
       fs !! filepath = Some data /\
       scan data = Ok st /\ st_matches st = ms /\ ms <> [] /\
       fs' !! filepath = Some (st_data st) /\
       fs' !! (filepath +:+ ".orig")%string
         = Some (default data (fs !! (filepath +:+ ".orig")%string)) /\
       (forall p, p <> filepath -> p <> (filepath +:+ ".orig")%string ->
                  fs' !! p = fs !! p)) /\
  fs_after fs id (Vortek.patch_file fs filepath) !! (filepath +:+ ".orig")%string
    = fs !! (filepath +:+ ".orig")%string.
Proof.
  pose proof (backup_path_fresh filepath) as Hfresh. split.
  - intros fs' ms Hrun.
    unfold patch_binary, read_file, write_file in Hrun.
    destruct (fs !! filepath) as [data|] eqn:Hfile; cbn [mbind result_bind] in Hrun;
      [|done].
    destruct (scan data) as [st|] eqn:Hscan; cbn [mbind result_bind] in Hrun; [|done].
    case_decide as Hcount; [done|]. injection Hrun as <- <-.
    exists data, st. split; [done|]. split; [done|]. split; [done|]. split.
    { intros Hnil. apply Hcount. unfold total_patches. by rewrite Hnil. }
    split; [by rewrite lookup_insert_eq|]. split.
    + rewrite lookup_insert_ne by done.
      destruct (fs !! (filepath +:+ ".orig")%string) as [old|] eqn:Hbackup.
      * by rewrite Hbackup.
      * by rewrite lookup_insert_eq.
    + intros p Hp Hp'. rewrite lookup_insert_ne by done.
      destruct (fs !! (filepath +:+ ".orig")%string); [done|].
      by rewrite lookup_insert_ne.
  - destruct (patch_file_writes_one_path fs filepath) as [->|[data' ->]]; [done|].
    by rewrite lookup_insert_ne.
Qed.

Lemma backup_policy_witness :
  (exists data st,
     ({[ "lib.so"%string := MOV_X8_99 ++ SVC_0 ++ Vortek.OLD_SOCKET ]} : filesystem)
       !! "lib.so"%string = Some data /\
     scan data = Ok st /\
     st_matches st = [ mkMatch 4 0 1 99 "set_robust_list" ] /\
     [ mkMatch 4 0 1 99 "set_robust_list" ] <> [] /\
     ({[ "lib.so"%string := MOV_X8_99 ++ MOVN_X0_37 ++ Vortek.OLD_SOCKET;
         "lib.so.orig"%string := MOV_X8_99 ++ SVC_0 ++ Vortek.OLD_SOCKET ]} : filesystem)
       !! "lib.so"%string = Some (st_data st) /\
     ({[ "lib.so"%string := MOV_X8_99 ++ MOVN_X0_37 ++ Vortek.OLD_SOCKET;
         "lib.so.orig"%string := MOV_X8_99 ++ SVC_0 ++ Vortek.OLD_SOCKET ]} : filesystem)
       !! ("lib.so" +:+ ".orig")%string
       = Some (default data
                 (({[ "lib.so"%string := MOV_X8_99 ++ SVC_0 ++ Vortek.OLD_SOCKET ]}
                     : filesystem) !! ("lib.so" +:+ ".orig")%string)) /\
     (forall p, p <> "lib.so"%string -> p <> ("lib.so" +:+ ".orig")%string ->
        ({[ "lib.so"%string := MOV_X8_99 ++ MOVN_X0_37 ++ Vortek.OLD_SOCKET;
            "lib.so.orig"%string := MOV_X8_99 ++ SVC_0 ++ Vortek.OLD_SOCKET ]}
           : filesystem) !! p
        = ({[ "lib.so"%string := MOV_X8_99 ++ SVC_0 ++ Vortek.OLD_SOCKET ]}
             : filesystem) !! p)) /\
  Vortek.patch_file {[ "lib.so"%string := MOV_X8_99 ++ SVC_0 ++ Vortek.OLD_SOCKET ]}
      "lib.so"
    = Ok {[ "lib.so"%string
              := MOV_X8_99 ++ SVC_0 ++ Vortek.NEW_SOCKET ++ replicate 11 x00 ]} /\
  fs_after {[ "lib.so"%string := MOV_X8_99 ++ SVC_0 ++ Vortek.OLD_SOCKET ]} id
      (Vortek.patch_file
         {[ "lib.so"%string := MOV_X8_99 ++ SVC_0 ++ Vortek.OLD_SOCKET ]} "lib.so")
    !! ("lib.so" +:+ ".orig")%string
    = ({[ "lib.so"%string := MOV_X8_99 ++ SVC_0 ++ Vortek.OLD_SOCKET ]} : filesystem)
        !! ("lib.so" +:+ ".orig")%string.
Proof.
  split; [|split].
  - apply (proj1 (backup_policy
                    {[ "lib.so"%string := MOV_X8_99 ++ SVC_0 ++ Vortek.OLD_SOCKET ]}
                    "lib.so")
             {[ "lib.so"%string := MOV_X8_99 ++ MOVN_X0_37 ++ Vortek.OLD_SOCKET;
                "lib.so.orig"%string := MOV_X8_99 ++ SVC_0 ++ Vortek.OLD_SOCKET ]}
             [ mkMatch 4 0 1 99 "set_robust_list" ]).
    vm_compute. reflexivity.
  - vm_compute. reflexivity.
  - apply (proj2 (backup_policy
                    {[ "lib.so"%string := MOV_X8_99 ++ SVC_0 ++ Vortek.OLD_SOCKET ]}
                    "lib.so")).
Defined.

(** ** The sentinels that do stop the search *)

Lemma is_stop_spec (w : bytes) :
  is_stop w = true ->
  length w = 4%nat /\ w <> SVC_0 /\ the_targets !! w = None /\
  exists insn, unpack_u32_le w = Ok insn /\
               (is_movz_x8 insn = true \/ is_branch insn = true).
Proof.
  unfold is_stop. rewrite !andb_true_iff, negb_true_iff, orb_true_iff.
  intros [[[Hlen Hsvc] Hnone] Hstop].
  apply bool_decide_eq_true in Hlen. apply bool_decide_eq_false in Hsvc.
  apply bool_decide_eq_true in Hnone.
  split; [done|]. split; [done|]. split; [done|].
  unfold is_load_x8, is_branch_word in Hstop.
  destruct (unpack_total w Hlen) as (insn & Hinsn & _). rewrite Hinsn in Hstop.
  by exists insn.
Qed.

(** The search walks back over words that stop nothing and gives up at the
    first sentinel. *)
Lemma lookback_stops targets (data : bytes) (o d : Z) (n : nat) :
  forall b : Z,
    1 <= b <= d -> d < b + Z.of_nat n ->
    (forall j, b <= j < d ->
       targets !! slice data (o - j * 4) (o - j * 4 + 4) = None /\
       exists insn, unpack_u32_le (slice data (o - j * 4) (o - j * 4 + 4)) = Ok insn /\
                    is_movz_x8 insn = false /\ is_branch insn = false) ->
    targets !! slice data (o - d * 4) (o - d * 4 + 4) = None ->
    (exists insn, unpack_u32_le (slice data (o - d * 4) (o - d * 4 + 4)) = Ok insn /\
                  (is_movz_x8 insn = true \/ is_branch insn = true)) ->
    lookback targets data o (range_from b 1 n) = Ok NotFound.
Proof.
  induction n as [|n IH]; intros b Hb Hd Hskip Hnone Hstop; [lia|].
  cbn [range_from]. rewrite lookback_cons. case_decide; [done|].
  destruct (decide (b = d)) as [->|Hne].
  - destruct Hstop as (insn & Hinsn & Hkind).
    rewrite Hnone, Hinsn. cbn [mbind result_bind].
    destruct (is_movz_x8 insn); [done|]. destruct Hkind as [? | ->]; done.
  - destruct (Hskip b ltac:(lia)) as (Hnone' & insn & Hinsn & Hmovz & Hbr).
    rewrite Hnone', Hinsn. cbn [mbind result_bind]. rewrite Hmovz, Hbr.
    apply IH; try lia; try done. intros j Hj. apply Hskip. lia.
Qed.

(** X1: with a sentinel between the anchor and the trap, the other words
    being fillers and the sentinel within the 16 steps of the search, the
    scan finds no match and leaves the buffer as it is. *)
Theorem sentinel_stops_search (pre post : list bytes) (stop : bytes) :
  Forall (fun w => is_filler w = true) pre ->
  Forall (fun w => is_filler w = true) post ->
  (length post <= 15)%nat ->
  is_stop stop = true ->
  scan (MOV_X8_99 ++ concat pre ++ stop ++ concat post ++ SVC_0) =
    Ok (mkScan (MOV_X8_99 ++ concat pre ++ stop ++ concat post ++ SVC_0) []).
Proof.
  intros Hpre Hpost Hgap Hstop.
  destruct (is_stop_spec stop Hstop) as (Hstop_len & Hstop_svc & Hstop_none & Hstop_insn).
  set (mid := pre ++ [stop] ++ post).
  set (words := MOV_X8_99 :: mid ++ [SVC_0]).
  assert (Hbuf : MOV_X8_99 ++ concat pre ++ stop ++ concat post ++ SVC_0 = concat words).
  { unfold words, mid. cbn [concat]. rewrite !concat_app. cbn [concat].
    by rewrite !app_nil_r, <- !(assoc_L (++)). }
  assert (Hmid : Forall (fun w => length w = 4%nat /\ w <> SVC_0) mid).
  { unfold mid. rewrite !Forall_app, Forall_singleton. split; [|split; [done|]].
    - eapply Forall_impl; [exact Hpre|]. intros w Hw.
      destruct (is_filler_spec w Hw) as (? & ? & _). done.
    - eapply Forall_impl; [exact Hpost|]. intros w Hw.
      destruct (is_filler_spec w Hw) as (? & ? & _). done. }
  assert (Hmid_len : length mid = (length pre + length post + 1)%nat).
  { unfold mid. rewrite !length_app. simpl. lia. }
  assert (Hwords : Forall (fun w => length w = 4%nat) words).
  { unfold words. constructor; [done|]. apply Forall_app. split.
    - eapply Forall_impl; [exact Hmid|]. by intros w [? _].
    - by constructor. }
  assert (Hlen : Z.of_nat (length (concat words)) = 4 * (Z.of_nat (length mid) + 2)).
  { rewrite length_concat_words by done. unfold words.
    rewrite length_cons, length_app, length_cons. simpl. lia. }
  assert (Hword : forall (k : nat) w, mid !! k = Some w ->
            slice (concat words) (4 + 4 * Z.of_nat k) (4 + 4 * Z.of_nat k + 4) = w).
  { intros k w Hk.
    replace (4 + 4 * Z.of_nat k) with (4 * Z.of_nat (S k)) by lia.
    apply slice_concat_word; [done|]. unfold words.
    rewrite lookup_cons. by apply lookup_app_l_Some. }
  rewrite Hbuf, scan_unfold. unfold py_range.
  replace (Z.to_nat ((Z.of_nat (length (concat words)) - 3 - 4 + 4 - 1) / 4))
    with (S (length mid)) by (rewrite Hlen; Z.div_mod_to_equations; lia).
  apply scan_loop_quiet. intros k Hk.
  destruct (decide (k < length mid)%nat) as [Hin|Hlast].
  - destruct (lookup_lt_is_Some_2 mid k Hin) as [w Hw].
    apply quiet_no_trap. rewrite (Hword k w Hw).
    by destruct (Forall_lookup_1 _ _ _ _ Hmid Hw).
  - assert (k = length mid) as -> by lia.
    apply quiet_not_found.
    change (py_range 1 (LOOKBACK + 1) 1) with (range_from 1 1 16).
    apply (lookback_stops the_targets (concat words) _ (Z.of_nat (length post) + 1));
      try lia.
    + intros j Hj.
      assert (Hidx : mid !! (length mid - Z.to_nat j)%nat
                     = post !! (length post - Z.to_nat j)%nat).
      { rewrite Hmid_len. unfold mid.
        rewrite lookup_app_r by lia. rewrite lookup_app_r by (simpl; lia).
        f_equal. simpl. lia. }
      destruct (lookup_lt_is_Some_2 post (length post - Z.to_nat j)%nat ltac:(lia))
        as [w Hw].
      rewrite Hw in Hidx. apply Hword in Hidx.
      replace (4 + 4 * Z.of_nat (length mid - Z.to_nat j)%nat)
        with (4 + 4 * Z.of_nat (length mid) - j * 4) in Hidx
        by lia.
      rewrite Hidx.
      destruct (is_filler_spec w (Forall_lookup_1 _ _ _ _ Hpost Hw)) as (_ & _ & ? & ?).
      done.
    + assert (Hidx : mid !! length pre = Some stop).
      { unfold mid. rewrite lookup_app_r by lia. by rewrite Nat.sub_diag. }
      apply Hword in Hidx.
      replace (4 + 4 * Z.of_nat (length pre))
        with (4 + 4 * Z.of_nat (length mid) - (Z.of_nat (length post) + 1) * 4) in Hidx
        by lia.
      by rewrite Hidx.
    + assert (Hidx : mid !! length pre = Some stop).
      { unfold mid. rewrite lookup_app_r by lia. by rewrite Nat.sub_diag. }
      apply Hword in Hidx.
      replace (4 + 4 * Z.of_nat (length pre))
        with (4 + 4 * Z.of_nat (length mid) - (Z.of_nat (length post) + 1) * 4) in Hidx
        by lia.
      by rewrite Hidx.
Qed.

(** [b], [bl] and a load of a number outside the table are such sentinels. *)
Lemma sentinel_stops_search_witness :
  scan (MOV_X8_99 ++ concat [NOP] ++ [x00; x00; x00; x94] ++ concat [NOP; NOP] ++ SVC_0) =
    Ok (mkScan (MOV_X8_99 ++ concat [NOP] ++ [x00; x00; x00; x94]
                ++ concat [NOP; NOP] ++ SVC_0) []).
Proof.
  apply (sentinel_stops_search [NOP] [NOP; NOP] [x00; x00; x00; x94]).
  - repeat constructor.
  - repeat constructor.
  - simpl. lia.
  - reflexivity.
Defined.

Lemma is_stop_examples :
  is_stop [x00; x00; x00; x14] = true /\      (* b *)
  is_stop [x00; x00; x00; x94] = true /\      (* bl *)
  is_stop [x08; x08; x80; xd2] = true /\      (* mov x8, #64 *)
  is_stop RET = false.
Proof. repeat split; reflexivity. Qed.

(** ** Running the instruction patcher again *)

(** X2: a second run of [patch_binary] on the same path finds nothing: it
    returns [False] and leaves every file, the backup included, as the first
    run left it. *)
Theorem patch_binary_twice (fs fs1 : filesystem) (filepath : string) (flag : bool) ms :
  patch_binary fs filepath = Ok (fs1, flag, ms) ->
  patch_binary fs1 filepath = Ok (fs1, false, []).
Proof.
  intros Hrun. unfold patch_binary, read_file, write_file in Hrun.
  destruct (fs !! filepath) as [data|] eqn:Hfile; cbn [mbind result_bind] in Hrun;
    [|done].
  destruct (scan data) as [st|] eqn:Hscan; cbn [mbind result_bind] in Hrun; [|done].
  case_decide as Hcount.
  - injection Hrun as <- <- <-.
    apply (patch_binary_unpatched fs filepath data st); [done|done|].
    unfold total_patches in Hcount. destruct (st_matches st); [done|]. simpl in Hcount. lia.
  - injection Hrun as <- <- <-.
    eapply patch_binary_unpatched.
    + apply lookup_insert_eq.
    + by apply (scan_rescan data).
    + done.
Qed.

Lemma patch_binary_twice_witness :
  patch_binary {[ "libc.so.6"%string := MOV_X8_99 ++ MOVN_X0_37;
                  "libc.so.6.orig"%string := MOV_X8_99 ++ SVC_0 ]} "libc.so.6"
    = Ok ({[ "libc.so.6"%string := MOV_X8_99 ++ MOVN_X0_37;
             "libc.so.6.orig"%string := MOV_X8_99 ++ SVC_0 ]}, false, []).
Proof.
  apply (patch_binary_twice {[ "libc.so.6"%string := MOV_X8_99 ++ SVC_0 ]} _ _
           true [ mkMatch 4 0 1 99 "set_robust_list" ]).
  vm_compute. reflexivity.
Defined.

(** ** The scan as two passes *)

(** The search does not tell a trap from a patched trap: it walks over
    both. *)
Lemma lookback_patched_from (data0 data : bytes) (offset : Z) (backs : list Z) :
  patched_from data0 data -> offset mod 4 = 0 ->
  lookback the_targets data offset backs = lookback the_targets data0 offset backs.
Proof.
  intros Hrel Hal. induction backs as [|back rest IH]; [done|].
  rewrite !lookback_cons. case_decide as Hneg; [done|].
  destruct (Hrel (offset - back * 4)) as [->|[-> ->]];
    [lia|Z.div_mod_to_equations; lia|by rewrite IH|].
  destruct MOVN_X0_37_opaque as (_ & -> & insn & -> & Hmovz & Hbr).
  rewrite SVC_0_not_target. cbn [mbind result_bind]. rewrite Hmovz, Hbr.
  change (unpack_u32_le SVC_0) with (Ok 0xD4000001). cbn [mbind result_bind].
  change (is_movz_x8 0xD4000001) with false. change (is_branch 0xD4000001) with false.
  exact IH.
Qed.

(** At the end of a loop step the buffer is the input with the recorded
    traps patched. *)
Lemma scan_inv_patched_from (data0 : bytes) (o : Z) (st : scan_state) :
  scan_inv the_targets data0 o st -> patched_from data0 (st_data st).
Proof.
  intros Hinv o' Ho' Hal'.
  pose proof (inv_matches _ _ _ _ Hinv) as Hall. rewrite Forall_forall in Hall.
  destruct (decide (o' ∈ trap_offset <$> st_matches st)) as [Hin|Hout].
  - right. apply list_elem_of_fmap in Hin as (m & -> & Hm).
    destruct (Hall m Hm) as [_ _ _ _ _ _ _ Hbefore Hafter]. done.
  - left. apply slice_ext; [done|]. intros i Hi.
    apply (inv_frame _ _ _ _ Hinv). intros m Hm Htrap.
    destruct (Hall m Hm) as [_ _ Hal _ _ _ _ _ _].
    apply Hout. apply list_elem_of_fmap. exists m. split; [|done].
    Z.div_mod_to_equations. lia.
Qed.

Lemma two_pass_inv_step (data0 : bytes) (o : Z) (st : scan_state) :
  o + 4 <= Z.of_nat (length data0) ->
  two_pass_inv data0 o st ->
  exists st', scan_step the_targets st o = Ok st' /\ two_pass_inv data0 (o + 4) st'.
Proof.
  intros Hend (Hinv & k & -> & Hms & Hdata).
  destruct (scan_inv_step the_targets data0 _ st Hend Hinv) as (st' & Hstep & Hinv').
  exists st'. split; [done|]. split; [done|]. exists (S k). split; [lia|].
  pose proof (inv_offset _ _ _ _ Hinv) as [Ho Hal].
  pose proof (scan_inv_patched_from _ _ _ Hinv) as Hrel.
  assert (Hword : slice (st_data st) (4 + 4 * Z.of_nat k) (4 + 4 * Z.of_nat k + 4)
                  = slice data0 (4 + 4 * Z.of_nat k) (4 + 4 * Z.of_nat k + 4)).
  { apply slice_ext; [lia|]. intros i Hi. apply (inv_frame _ _ _ _ Hinv).
    intros m Hm Htrap.
    pose proof (inv_matches _ _ _ _ Hinv) as Hall. rewrite Forall_forall in Hall.
    destruct (Hall m Hm) as [_ Hhi _ _ _ _ _ _ _]. lia. }
  assert (Hlook0 : lookback the_targets data0 (4 + 4 * Z.of_nat k)
                     (py_range 1 (LOOKBACK + 1) 1)
                   = lookback the_targets (st_data st) (4 + 4 * Z.of_nat k)
                       (py_range 1 (LOOKBACK + 1) 1)).
  { symmetry. by apply lookback_patched_from. }
  rewrite range_from_snoc, omap_app. cbn [omap list_omap]. unfold find_at at 2.
  rewrite <- Hword, Hlook0.
  unfold scan_step in Hstep. case_decide as Hsvc.
  - destruct (lookback the_targets (st_data st) _ _) as [[m|]|e] eqn:Hlook;
      cbn [mbind result_bind] in Hstep; [| |done]; injection Hstep as <-;
      cbn [st_data st_matches].
    + split; [by rewrite Hms|].
      unfold apply_matches. rewrite foldl_snoc.
      apply lookback_found in Hlook as (-> & _).
      f_equal. exact Hdata.
    + split; [by rewrite Hms, app_nil_r|done].
  - injection Hstep as <-. split; [by rewrite Hms, app_nil_r|done].
Qed.

(** X3: the scan, which patches each trap as soon as it has matched it, is
    the two-pass contract: it returns the matches found in the buffer as it
    was read, every one of them judged on the unpatched buffer, and that
    buffer with the word of each matched trap overwritten. *)
Theorem scan_is_find_then_apply (data : bytes) :
  scan data = Ok (mkScan (apply_matches data (find_matches data)) (find_matches data)).
Proof.
  destruct (py_range_offsets (Z.of_nat (length data))) as (n & Hrange & Hn); [lia|].
  destruct (scan_loop_invariant the_targets (two_pass_inv data)
              (Z.of_nat (length data)) (fun o st => two_pass_inv_step data o st)
              n 4 (mkScan data []))
    as (st & Hrun & _ & k & Hk & Hms & Hdata); [done| |].
  { split; [apply scan_inv_init|]. exists O. done. }
  assert (k = n) as -> by lia.
  rewrite scan_unfold, Hrange, Hrun. unfold find_matches. rewrite Hrange.
  destruct st as [d ms]. cbn [st_data st_matches] in *. by rewrite Hdata, Hms.
Qed.

(** ** The load test and the encoder *)

Lemma byte_of_to_Z (b : byte) : byte_of_Z (byte_to_Z b) = b.
Proof.
  unfold byte_of_Z, byte_to_Z. by rewrite N2Z.id, Byte.of_to_N.
Qed.

(** Packing what [struct.unpack] has read gives the four bytes back. *)
Lemma pack_unpack (w : bytes) (insn : Z) :
  unpack_u32_le w = Ok insn -> pack_u32_le insn = Ok w.
Proof.
  destruct w as [|b0 [|b1 [|b2 [|b3 [|]]]]]; try discriminate.
  intros [= <-]. unfold pack_u32_le.
  pose proof (byte_to_Z_range b0). pose proof (byte_to_Z_range b1).
  pose proof (byte_to_Z_range b2). pose proof (byte_to_Z_range b3).
  rewrite decide_True by lia. do 2 f_equal; [|f_equal; [|f_equal; [|f_equal]]].
  - rewrite <- (byte_of_to_Z b0) at 2. f_equal. Z.div_mod_to_equations. lia.
  - rewrite <- (byte_of_to_Z b1) at 2. f_equal. Z.div_mod_to_equations. lia.
  - rewrite <- (byte_of_to_Z b2) at 2. f_equal. Z.div_mod_to_equations. lia.
  - rewrite <- (byte_of_to_Z b3) at 2. f_equal. Z.div_mod_to_equations. lia.
Qed.

(** A 32-bit word that passes the mask test is the word of the immediate in
    its bits 5 to 20. *)
Lemma movz_x8_word_decode (insn : Z) :
  0 <= insn < 2 ^ 32 ->
  Z.land insn 0xFFE0001F = 0xD2800008 ->
  0 <= Z.land (Z.shiftr insn 5) 0xFFFF < 2 ^ 16 /\
  insn = movz_x8_word (Z.land (Z.shiftr insn 5) 0xFFFF).
Proof.
  intros Hrange Hmask. split.
  - change 0xFFFF with (Z.ones 16). rewrite Z.land_ones by lia.
    apply Z.mod_pos_bound. lia.
  - unfold movz_x8_word.
    rewrite Z.shiftl_land, <- Z.ldiff_ones_r by lia.
    change (Z.shiftl 0xFFFF 5) with 0x1FFFE0.
    rewrite Z.ldiff_land, <- Z.land_assoc.
    change (Z.land (Z.lnot (Z.ones 5)) 0x1FFFE0) with 0x1FFFE0.
    rewrite <- Z.lor_assoc, (Z.lor_comm _ 8), Z.lor_assoc.
    change (Z.lor (Z.shiftl 0x694 21) 8) with 0xD2800008.
    rewrite <- Hmask, <- Z.land_lor_distr_r.
    change (Z.lor 0xFFE0001F 0x1FFFE0) with (Z.ones 32).
    rewrite Z.land_ones by lia. symmetry. by apply Z.mod_small.
Qed.

(** X4: the different-load test of the search holds of four bytes exactly
    when they are what [encode_movz_x8] returns for some 16-bit immediate:
    the test has no false positive and misses no [mov x8, #imm16]. *)
Theorem is_load_x8_iff_encoded (w : bytes) :
  is_load_x8 w = true <->
  exists imm16, 0 <= imm16 < 2 ^ 16 /\ encode_movz_x8 imm16 = Ok w.
Proof.
  unfold is_load_x8, encode_movz_x8. split.
  - destruct (unpack_u32_le w) as [insn|] eqn:Hunpack; [|done].
    intros Htest. apply bool_decide_eq_true in Htest.
    assert (Hlen : length w = 4%nat).
    { by destruct w as [|? [|? [|? [|? [|]]]]]. }
    destruct (unpack_total w Hlen) as (insn' & Hinsn' & Hrange).
    rewrite Hunpack in Hinsn'. injection Hinsn' as <-.
    destruct (movz_x8_word_decode insn Hrange Htest) as [Himm Hword].
    exists (Z.land (Z.shiftr insn 5) 0xFFFF). split; [done|].
    change (pack_u32_le (movz_x8_word (Z.land (Z.shiftr insn 5) 0xFFFF)) = Ok w).
    rewrite <- Hword. by apply pack_unpack.
  - intros (imm16 & Himm & Hpack).
    destruct (movz_x8_word_fields imm16 Himm) as (Hrange & Hmask & _).
    destruct (unpack_pack (movz_x8_word imm16) Hrange) as (w' & Hpack' & _ & Hunpack).
    change (pack_u32_le (movz_x8_word imm16) = Ok w) in Hpack.
    rewrite Hpack in Hpack'. injection Hpack' as <-.
    rewrite Hunpack. by apply bool_decide_eq_true.
Qed.

(** ** The range of the encoder *)

Lemma lor_lt_pow2 (a b n : Z) :
  0 <= a -> 0 <= b -> 0 <= n ->
  (Z.lor a b < 2 ^ n <-> a < 2 ^ n /\ b < 2 ^ n).
Proof.
  intros Ha Hb Hn.
  assert (Hpow : 0 < 2 ^ n) by (apply Z.pow_pos_nonneg; lia).
  destruct (decide (a = 0)) as [->|Ha0]; [rewrite Z.lor_0_l; lia|].
  destruct (decide (b = 0)) as [->|Hb0]; [rewrite Z.lor_0_r; lia|].
  assert (Z.lor a b <> 0) by (rewrite Z.lor_eq_0_iff; lia).
  assert (0 <= Z.lor a b) by (apply Z.lor_nonneg; lia).
  rewrite !Z.log2_lt_pow2 by lia. rewrite Z.log2_lor by lia. lia.
Qed.

(** X5: [encode_movz_x8] raises [struct.error] exactly for a negative
    immediate and for one of 2^27 or more. Any other immediate is encoded
    into four bytes without a check that it fits 16 bits: bits 5 to 20 of
    the word hold the immediate modulo 2^16. *)
Theorem encode_movz_x8_range (imm16 : Z) :
  (encode_movz_x8 imm16 = Raise StructError <-> imm16 < 0 \/ 2 ^ 27 <= imm16) /\
  (forall w, encode_movz_x8 imm16 = Ok w ->
     0 <= imm16 < 2 ^ 27 /\ length w = 4%nat /\
     exists insn, unpack_u32_le w = Ok insn /\
                  Z.land (Z.shiftr insn 5) 0xFFFF = imm16 mod 2 ^ 16).
Proof.
  assert (Hfit : 0 <= movz_x8_word imm16 < 2 ^ 32 <-> 0 <= imm16 < 2 ^ 27).
  { unfold movz_x8_word. destruct (decide (imm16 < 0)) as [Hneg|Hpos].
    - assert (Z.lor (Z.lor (Z.shiftl 0x694 21) (Z.shiftl imm16 5)) 8 < 0); [|lia].
      rewrite !Z.lor_neg, !Z.shiftl_neg. lia.
    - assert (0 <= Z.shiftl imm16 5) by (apply Z.shiftl_nonneg; lia).
      assert (0 <= Z.lor (Z.shiftl 0x694 21) (Z.shiftl imm16 5))
        by (apply Z.lor_nonneg; split; [done|lia]).
      assert (0 <= Z.lor (Z.lor (Z.shiftl 0x694 21) (Z.shiftl imm16 5)) 8)
        by (apply Z.lor_nonneg; lia).
      rewrite !lor_lt_pow2 by (done || lia).
      assert (Hshift : Z.shiftl imm16 5 = imm16 * 32)
        by (by rewrite Z.shiftl_mul_pow2 by lia).
      change (Z.shiftl 0x694 21) with 3531603968 in *.
      change (2 ^ 32) with 4294967296. change (2 ^ 27) with 134217728.
      rewrite Hshift in *. lia. }
  unfold encode_movz_x8. change (Z.lor _ 8) with (movz_x8_word imm16).
  unfold pack_u32_le. cbv zeta. split.
  - case_decide as Hrange; [|split; [intros _; lia|done]].
    split; [done|]. lia.
  - intros w Hw. case_decide as Hrange; [|done].
    split; [lia|]. destruct (unpack_pack _ Hrange) as (w' & Hpack & Hlen & Hunpack).
    unfold pack_u32_le in Hpack. rewrite decide_True in Hpack by done.
    rewrite Hw in Hpack. injection Hpack as <-.
    split; [done|]. eexists. split; [exact Hunpack|].
    unfold movz_x8_word.
    rewrite !Z.shiftr_lor, (Z.shiftr_shiftl_l imm16 5 5) by lia.
    change (5 - 5) with 0. rewrite Z.shiftl_0_r, !Z.land_lor_distr_l.
    change (Z.land (Z.shiftr (Z.shiftl 0x694 21) 5) 0xFFFF) with 0.
    change (Z.land (Z.shiftr 8 5) 0xFFFF) with 0.
    rewrite Z.lor_0_l, Z.lor_0_r. change 0xFFFF with (Z.ones 16).
    by rewrite Z.land_ones by lia.
Qed.

(** ** The branch test on the bytes of a word *)

(** X6: the branch test of the search holds of four bytes exactly when the
    last one, the most significant, lies in 0x14..0x17 (an unconditional
    [b]) or in 0x94..0x97 ([bl]); no other word, [ret] and [br] included,
    stops the search as a branch. *)
Theorem is_branch_word_iff (w : bytes) :
  is_branch_word w = true <->
  exists b0 b1 b2 b3,
    w = [b0; b1; b2; b3] /\
    (0x14 <= byte_to_Z b3 <= 0x17 \/ 0x94 <= byte_to_Z b3 <= 0x97).
Proof.
  unfold is_branch_word, is_branch.
  destruct w as [|b0 [|b1 [|b2 [|b3 [|]]]]];
    try (split; [done|intros (? & ? & ? & ? & ? & _); done]).
  cbn [unpack_u32_le].
  pose proof (byte_to_Z_range b0). pose proof (byte_to_Z_range b1).
  pose proof (byte_to_Z_range b2). pose proof (byte_to_Z_range b3).
  rewrite bool_decide_eq_true, !elem_of_cons, elem_of_nil.
  rewrite Z.shiftr_div_pow2 by lia. change (2 ^ 26) with 67108864.
  split.
  - intros Htop. exists b0, b1, b2, b3. split; [done|].
    Z.div_mod_to_equations. lia.
  - intros (? & ? & ? & b3' & [= <- <- <- <-] & Hb3).
    Z.div_mod_to_equations. lia.
Qed.

(** ** The batch run of the instruction patcher *)

Lemma patch_binary_cases (fs : filesystem) (p : string) (data : bytes) :
  fs !! p = Some data ->
  exists st,
    scan data = Ok st /\
    ((st_matches st = [] /\ patch_binary fs p = Ok (fs, false, [])) \/
     (st_matches st <> [] /\
      patch_binary fs p = Ok (patched_fs fs p data (st_data st), true, st_matches st))).
Proof.
  intros Hfile. destruct (scan_run data) as (n & st & _ & _ & Hscan & _).
  exists st. split; [done|].
  destruct (decide (st_matches st = [])) as [Hnil|Hcons].
  - left. split; [done|]. by eapply patch_binary_unpatched.
  - right. split; [done|]. by apply patch_binary_patched.
Qed.

Lemma patched_fs_lookup_other (fs : filesystem) (p q : string) (data data' : bytes) :
  q <> p -> (q <> (p +:+ ".orig")%string \/ is_Some (fs !! q)) ->
  patched_fs fs p data data' !! q = fs !! q.
Proof.
  intros Hp Hq. unfold patched_fs. rewrite lookup_insert_ne by done.
  destruct (fs !! (p +:+ ".orig")%string) eqn:Hbackup; [done|].
  rewrite lookup_insert_ne; [done|]. intros <-.
  destruct Hq as [?|[? Hsome]]; [done|]. by rewrite Hbackup in Hsome.
Qed.

(** The loop of [main] ends normally and keeps every property of the file
    system that a write of [patch_binary] keeps. *)
Lemma main_loop_invariant (R : filesystem -> Prop) (paths : list string) :
  (forall (fs : filesystem) p data st,
     p ∈ paths -> R fs -> fs !! p = Some data -> scan data = Ok st ->
     st_matches st <> [] -> R (patched_fs fs p data (st_data st))) ->
  forall (fs : filesystem) (b : bool),
    R fs ->
    exists fs' flag,
      main_loop fs b paths = Ok (fs', flag) /\ R fs' /\
      (flag = false -> b = false /\ fs' = fs) /\ (b = true -> flag = true).
Proof.
  induction paths as [|p rest IH]; intros Hstep fs b HR.
  - by exists fs, b.
  - assert (Hrest : forall (fs : filesystem) p' data st,
              p' ∈ rest -> R fs -> fs !! p' = Some data -> scan data = Ok st ->
              st_matches st <> [] -> R (patched_fs fs p' data (st_data st))).
    { intros ? p' ? ? Hin. apply Hstep. by right. }
    cbn [main_loop]. destruct (fs !! p) as [data|] eqn:Hfile; [|by apply IH].
    destruct (patch_binary_cases fs p data Hfile)
      as (st & Hscan & [[Hnil ->]|[Hcons ->]]); cbn [mbind result_bind].
    + by apply IH.
    + destruct (IH Hrest (patched_fs fs p data (st_data st)) true)
        as (fs' & flag & Hrun & HR' & _ & Htrue).
      { apply Hstep; (done || by left). }
      exists fs', flag. split; [done|]. split; [done|].
      rewrite (Htrue eq_refl). done.
Qed.

Lemma patched_from_refl (data : bytes) : patched_from data data.
Proof. intros o _ _. by left. Qed.

Lemma patched_from_trans (d0 d1 d2 : bytes) :
  patched_from d0 d1 -> patched_from d1 d2 -> patched_from d0 d2.
Proof.
  intros H01 H12 o Ho Hal.
  destruct (H01 o Ho Hal) as [E01|[Hsvc Hmovn]];
    destruct (H12 o Ho Hal) as [E12|[Hsvc' Hmovn']].
  - left. by rewrite E12.
  - right. by rewrite <- E01.
  - right. by rewrite E12.
  - rewrite Hmovn in Hsvc'. discriminate.
Qed.

(** X7: with at least one path, [main] of the instruction patcher ends
    normally whatever the files hold, and all it ever does to a file that
    existed before is to turn words [svc #0] at multiples of four into the
    fail-with-ENOSYS word: the file still exists, has the same length, and
    each of its words is the word it was, or was [svc #0] and is the
    fail-with-ENOSYS word now. No file is removed, truncated or changed
    anywhere else, the backups included. *)
Theorem main_runs (fs : filesystem) (prog : string) (paths : list string) :
  paths <> [] ->
  exists fs' flag,
    main fs (prog :: paths) = Ok (fs', flag) /\
    (forall q d, fs !! q = Some d ->
       exists d',
         fs' !! q = Some d' /\ length d' = length d /\
         (forall o, 0 <= o -> o mod 4 = 0 ->
            slice d' o (o + 4) = slice d o (o + 4) \/
            (slice d o (o + 4) = SVC_0 /\ slice d' o (o + 4) = MOVN_X0_37))).
Proof.
  intros Hpaths.
  destruct (main_loop_invariant
              (fun fs1 : filesystem =>
                 forall q d, fs !! q = Some d ->
                   exists d', fs1 !! q = Some d' /\ length d' = length d /\
                              patched_from d d')
              paths) with (fs := fs) (b := false)
    as (fs' & flag & Hrun & Hfiles & _).
  - intros fs1 p data st Hin Hfiles Hfile Hscan _ q d Hq.
    destruct (Hfiles q d Hq) as (d1 & Hd1 & Hlen1 & Hfrom1).
    destruct (decide (q = p)) as [->|Hne].
    + exists (st_data st). unfold patched_fs. rewrite lookup_insert_eq.
      split; [done|]. rewrite Hfile in Hd1. injection Hd1 as <-.
      destruct (scan_run data) as (n & st' & _ & _ & Hscan' & Hinv).
      rewrite Hscan in Hscan'. injection Hscan' as <-. split.
      * rewrite <- Hlen1. apply (inv_length _ _ _ _ Hinv).
      * apply (patched_from_trans d data); [done|].
        by apply (scan_inv_patched_from data _ st Hinv).
    + exists d1. rewrite patched_fs_lookup_other; [done|done|].
      right. by rewrite Hd1.
  - intros q d Hq. exists d. split; [done|]. split; [done|]. apply patched_from_refl.
  - exists fs', flag. split; [|exact Hfiles].
    unfold main. rewrite decide_False.
    + exact Hrun.
    + destruct paths; [done|]. simpl. lia.
Qed.

Lemma main_runs_witness :
  exists (fs' : filesystem) flag,
    main {[ "libc.so.6"%string := MOV_X8_99 ++ SVC_0 ]}
         ["patch_glibc_seccomp.py"%string; "libc.so.6"%string; "ld.so"%string]
      = Ok (fs', flag) /\
    (forall q d,
       ({[ "libc.so.6"%string := MOV_X8_99 ++ SVC_0 ]} : filesystem) !! q = Some d ->
       exists d',
         fs' !! q = Some d' /\ length d' = length d /\
         (forall o, 0 <= o -> o mod 4 = 0 ->
            slice d' o (o + 4) = slice d o (o + 4) \/
            (slice d o (o + 4) = SVC_0 /\ slice d' o (o + 4) = MOVN_X0_37))).
Proof. apply main_runs. discriminate. Defined.

(** A patched trap stays patched when the buffer is scanned again. *)
Lemma scan_keeps_patched (data : bytes) (st : scan_state) (t : Z) :
  scan data = Ok st -> 0 <= t -> t mod 4 = 0 ->
  slice data t (t + 4) = MOVN_X0_37 ->
  slice (st_data st) t (t + 4) = MOVN_X0_37.
Proof.
  intros Hscan Ht Hal Hword.
  destruct (scan_run data) as (n & st' & _ & _ & Hscan' & Hinv).
  rewrite Hscan in Hscan'. injection Hscan' as <-.
  destruct (scan_inv_patched_from _ _ _ Hinv t Ht Hal) as [->|[Hsvc _]]; [done|].
  rewrite Hword in Hsvc. discriminate.
Qed.

(** When the loop of [main] sets [any_patched], some file holds a patched
    trap where it held [svc #0] before. *)
Lemma main_loop_changed (paths : list string) :
  forall (fs fs' : filesystem) (flag : bool),
    main_loop fs false paths = Ok (fs', flag) -> flag = true ->
    exists p d d' t,
      fs !! p = Some d /\ fs' !! p = Some d' /\
      slice d t (t + 4) = SVC_0 /\ slice d' t (t + 4) = MOVN_X0_37.
Proof.
  induction paths as [|p rest IH]; intros fs fs' flag Hrun Hflag.
  - injection Hrun as _ <-. done.
  - cbn [main_loop] in Hrun.
    destruct (fs !! p) as [data|] eqn:Hfile; [|by eapply IH].
    destruct (patch_binary_cases fs p data Hfile)
      as (st & Hscan & [[Hnil Hpatch]|[Hcons Hpatch]]);
      rewrite Hpatch in Hrun; cbn [mbind result_bind] in Hrun; [by eapply IH|].
    destruct (scan_run data) as (n & st' & _ & _ & Hscan' & Hinv).
    rewrite Hscan in Hscan'. injection Hscan' as <-.
    destruct (st_matches st) as [|m ms] eqn:Hms; [done|].
    pose proof (inv_matches _ _ _ _ Hinv) as Hall. rewrite Hms in Hall.
    apply Forall_cons in Hall as [[Hlo _ Hal _ _ _ _ Hbefore Hafter] _].
    destruct (main_loop_invariant
                (fun fs1 : filesystem =>
                   exists d', fs1 !! p = Some d' /\
                     slice d' (trap_offset m) (trap_offset m + 4) = MOVN_X0_37)
                rest) with (fs := patched_fs fs p data (st_data st)) (b := true)
      as (fs'' & flag'' & Hrun' & (d' & Hd' & Hword) & _).
    + intros fs1 q dq stq _ (d1 & Hd1 & Hword1) Hq Hscanq _.
      destruct (decide (q = p)) as [->|Hne].
      * exists (st_data stq). unfold patched_fs. rewrite lookup_insert_eq.
        split; [done|]. rewrite Hd1 in Hq. injection Hq as <-.
        apply (scan_keeps_patched d1); (done || lia).
      * exists d1. rewrite patched_fs_lookup_other; [done|done|].
        right. by rewrite Hd1.
    + exists (st_data st). unfold patched_fs. by rewrite lookup_insert_eq.
    + rewrite Hrun in Hrun'. injection Hrun' as <- <-.
      by exists p, data, d', (trap_offset m).
Qed.

(** X8: [main] of the instruction patcher leaves [any_patched] false
    exactly when it has changed nothing on disk: it reports patches if and
    only if some file was rewritten with other bytes. *)
Theorem main_any_patched (fs fs' : filesystem) (prog : string) (paths : list string)
    (flag : bool) :
  main fs (prog :: paths) = Ok (fs', flag) ->
  (flag = false <-> fs' = fs).
Proof.
  unfold main. case_decide; [done|].
  change (drop 1 (prog :: paths)) with paths. intros Hrun. split.
  - intros Hflag.
    destruct (main_loop_invariant (fun _ => True) paths) with (fs := fs) (b := false)
      as (fs'' & flag'' & Hrun' & _ & Hsame & _); [done|done|].
    rewrite Hrun in Hrun'. injection Hrun' as <- <-. by apply Hsame.
  - intros ->. destruct flag; [|done].
    destruct (main_loop_changed paths fs fs true Hrun eq_refl)
      as (p & d & d' & t & Hd & Hd' & Hsvc & Hmovn).
    rewrite Hd in Hd'. injection Hd' as <-. rewrite Hsvc in Hmovn. discriminate.
Qed.

Lemma main_any_patched_witness :
  true = false <->
  ({[ "libc.so.6"%string := MOV_X8_99 ++ MOVN_X0_37;
      "libc.so.6.orig"%string := MOV_X8_99 ++ SVC_0 ]} : filesystem)
    = {[ "libc.so.6"%string := MOV_X8_99 ++ SVC_0 ]}.
Proof.
  apply (main_any_patched _ _ "patch_glibc_seccomp.py" ["libc.so.6"%string]).
  vm_compute. reflexivity.
Defined.

(** ** Occurrences after a replacement *)

Section Occurrences.
Local Open Scope nat_scope.
Implicit Types (s old new pre post rest out data : bytes) (i j k n : nat).

Lemma overlap_free_spec old new j :
  overlap_free old new = true -> 1 <= j <= length new ->
  take j new <> drop (length old - j) old.
Proof.
  unfold overlap_free. rewrite forallb_forall. intros Hall Hj.
  specialize (Hall j). rewrite negb_true_iff, bool_decide_eq_false in Hall.
  apply Hall, in_seq. lia.
Qed.

(** An occurrence, byte by byte. *)
Lemma occurs_lookup s data :
  occurs s data <->
  exists i, forall j, j < length s -> data !! (i + j) = s !! j.
Proof.
  split.
  - intros (pre & post & ->). exists (length pre). intros j Hj.
    rewrite lookup_app_r by lia. rewrite lookup_app_l by lia. f_equal. lia.
  - intros (i & Hi).
    assert (Hs : take (length s) (drop i data) = s).
    { apply list_eq. intros j. rewrite lookup_take, lookup_drop.
      case_decide; [by apply Hi|]. symmetry. apply lookup_ge_None. lia. }
    exists (take i data), (drop (length s) (drop i data)).
    rewrite <- (take_drop i data) at 1. f_equal.
    rewrite <- (take_drop (length s) (drop i data)) at 1. by rewrite Hs.
Qed.

(** The bytes of a buffer in which one occurrence has been replaced. *)
Lemma lookup_replaced pre new k out n :
  (pre ++ (new ++ replicate k x00) ++ out) !! n =
    if decide (n < length pre) then pre !! n
    else if decide (n < length pre + length new) then new !! (n - length pre)
    else if decide (n < length pre + length new + k) then Some x00
    else out !! (n - length pre - length new - k).
Proof.
  repeat case_decide.
  - by rewrite lookup_app_l.
  - rewrite lookup_app_r by lia. rewrite <- (assoc_L (++)).
    by rewrite lookup_app_l by lia.
  - rewrite lookup_app_r by lia. rewrite <- (assoc_L (++)).
    rewrite lookup_app_r by lia. rewrite lookup_app_l by (rewrite length_replicate; lia).
    apply lookup_replicate_2. lia.
  - rewrite lookup_app_r by lia. rewrite <- (assoc_L (++)).
    rewrite lookup_app_r by lia.
    rewrite lookup_app_r by (rewrite length_replicate; lia).
    rewrite length_replicate. f_equal; lia.
Qed.

(** A string without null byte, longer than [new], does not occur across a
    replacement padded with at least one null byte unless it ends inside
    [new]. *)
Lemma no_occurrence_step s pre new k out :
  s <> [] -> x00 ∉ s -> 0 < k -> length new < length s ->
  overlap_free s new = true ->
  ~ occurs s pre -> ~ occurs s out ->
  ~ occurs s (pre ++ (new ++ replicate k x00) ++ out).
Proof.
  intros Hs Hnull Hk Hlen Hfree Hpre Hout Hocc.
  assert (0 < length s) by (destruct s; [done|simpl; lia]).
  apply occurs_lookup in Hocc as (i & Hi).
  assert (Hzero : forall j, j < length s ->
            (pre ++ (new ++ replicate k x00) ++ out) !! (i + j) <> Some x00).
  { intros j Hj Heq. rewrite Hi in Heq by done.
    apply Hnull. by eapply list_elem_of_lookup_2. }
  destruct (decide (i + length s <= length pre + length new)) as [Hin|Hover].
  - destruct (decide (i + length s <= length pre)) as [Hinpre|Hcross].
    + apply Hpre, occurs_lookup. exists i. intros j Hj.
      rewrite <- Hi by done. rewrite lookup_replaced. by rewrite decide_True by lia.
    + apply (overlap_free_spec s new (i + length s - length pre) Hfree); [lia|].
      apply list_eq. intros t. rewrite lookup_take, lookup_drop.
      case_decide as Ht; [|symmetry; apply lookup_ge_None; lia].
      specialize (Hi (length pre + t - i) ltac:(lia)).
      rewrite lookup_replaced in Hi. rewrite decide_False, decide_True in Hi by lia.
      replace (i + (length pre + t - i) - length pre) with t in Hi by lia.
      rewrite Hi. f_equal. lia.
  - destruct (decide (i <= length pre + length new)) as [Hbefore|Hafter].
    + apply (Hzero (length pre + length new - i)); [lia|].
      rewrite lookup_replaced. rewrite !decide_False, decide_True by lia. done.
    + destruct (decide (i < length pre + length new + k)) as [Hpad|Hbeyond].
      * apply (Hzero 0); [lia|].
        rewrite lookup_replaced. rewrite !decide_False, decide_True by lia. done.
      * apply Hout, occurs_lookup. exists (i - length pre - length new - k).
        intros j Hj. rewrite <- Hi by done. rewrite lookup_replaced.
        rewrite !decide_False by lia. f_equal. lia.
Qed.

(** After the replacement of its occurrences [old] no longer occurs. *)
Lemma replaced_fixed_no_old old new k data out :
  old <> [] -> x00 ∉ old -> 0 < k -> length old = length new + k ->
  overlap_free old new = true ->
  replaced_fixed old (new ++ replicate k x00) data out ->
  ~ occurs old out.
Proof.
  intros Hold Hnull Hk Hlen Hfree.
  induction 1 as [|pre rest out Hfirst _ IH]; [done|].
  apply no_occurrence_step; try done; [lia|].
  intros (a & b & Hpre).
  assert (length pre <= length a) as Hle.
  { apply (Hfirst a (b ++ old ++ rest)). rewrite Hpre.
    by rewrite <- !(assoc_L (++)). }
  apply (f_equal length) in Hpre. rewrite !length_app in Hpre.
  destruct old; [done|]. simpl in Hpre. lia.
Qed.

(** Replacing by null bytes brings no occurrence of a string without null
    byte that did not occur before. *)
Lemma replaced_fixed_no_other s old k data out :
  s <> [] -> x00 ∉ s -> 0 < k ->
  replaced_fixed old (replicate k x00) data out ->
  ~ occurs s data -> ~ occurs s out.
Proof.
  intros Hs Hnull Hk.
  induction 1 as [|pre rest out _ _ IH]; [done|]. intros Hdata.
  change (replicate k x00) with ([] ++ replicate k x00).
  apply no_occurrence_step; try done.
  - destruct s; [done|simpl; lia].
  - intros (a & b & ->). apply Hdata.
    exists a, (b ++ old ++ rest). by rewrite <- !(assoc_L (++)).
  - apply IH. intros (a & b & ->). apply Hdata.
    exists (pre ++ old ++ a), b. by rewrite <- !(assoc_L (++)).
Qed.
End Occurrences.

(** ** [patch_binary] and [patch_file] of the substring patcher *)

(** When [old] is not empty, [new] fits and both decode, [patch_binary]
    returns the buffer with every occurrence replaced. *)
Lemma patch_binary_fits (data old new : bytes) (name : string) :
  old <> [] -> (length new <= length old)%nat ->
  (Vortek.utf8_valid old && Vortek.utf8_valid new) = true ->
  exists out,
    Vortek.patch_binary data old new name = Ok out /\
    replaced_fixed old (new ++ replicate (length old - length new) x00) data out.
Proof.
  intros Hold Hlen Hvalid. unfold Vortek.patch_binary.
  case_decide as Hcount.
  - exists data. split; [done|]. apply replaced_done. by apply bytes_count_zero.
  - rewrite decide_False by lia. rewrite Hvalid.
    replace (Z.to_nat (Z.of_nat (length old) - Z.of_nat (length new)))
      with (length old - length new)%nat by lia.
    eexists. split; [reflexivity|].
    destruct old as [|o old']; [done|]. cbn [Vortek.bytes_replace].
    by apply replace_from_spec.
Qed.

(** X9: whenever [patch_binary] of the substring patcher returns a buffer,
    that buffer has the length of the input, for every [old] and [new], the
    empty [old] included. *)
Theorem patch_binary_keeps_length (data old new out : bytes) (name : string) :
  Vortek.patch_binary data old new name = Ok out -> length out = length data.
Proof.
  unfold Vortek.patch_binary. case_decide as Hcount; [by intros [= <-]|].
  case_decide as Hlen; [done|].
  destruct (Vortek.utf8_valid old && Vortek.utf8_valid new); [|done].
  intros [= <-]. destruct old as [|o old'].
  - destruct new as [|? ?]; [|simpl in Hlen; lia].
    cbn [Vortek.bytes_replace length app replicate Z.of_nat Z.sub Z.to_nat].
    clear. induction data as [|b rest IH]; [done|]. simpl in *. by rewrite IH.
  - cbn [Vortek.bytes_replace].
    eapply (replaced_fixed_length (o :: old')); [|by apply replace_from_spec].
    rewrite length_app, length_replicate. lia.
Qed.

Lemma patch_binary_keeps_length_witness :
  length (Vortek.NEW_SOCKET ++ replicate 11 x00 ++ [x00; x62])
    = length (Vortek.OLD_SOCKET ++ [x00; x62]).
Proof.
  apply (patch_binary_keeps_length _ Vortek.OLD_SOCKET Vortek.NEW_SOCKET _ "Socket path").
  vm_compute. reflexivity.
Defined.

(** X10: when [old] is not empty and holds no null byte, [new] is strictly
    shorter and no non-empty beginning of [new] is an end of [old], the
    buffer that [patch_binary] returns holds no occurrence of [old] any
    more. *)
Theorem patch_binary_removes_old (data old new out : bytes) (name : string) :
  old <> [] -> x00 ∉ old -> (length new < length old)%nat ->
  overlap_free old new = true ->
  Vortek.patch_binary data old new name = Ok out ->
  ~ occurs old out.
Proof.
  intros Hold Hnull Hlen Hfree. unfold Vortek.patch_binary.
  case_decide as Hcount; [intros [= <-]; by apply bytes_count_zero|].
  rewrite decide_False by lia.
  destruct (Vortek.utf8_valid old && Vortek.utf8_valid new); [|done].
  intros [= <-].
  replace (Z.to_nat (Z.of_nat (length old) - Z.of_nat (length new)))
    with (length old - length new)%nat by lia.
  destruct old as [|o old']; [done|]. cbn [Vortek.bytes_replace].
  eapply (replaced_fixed_no_old (o :: old') new); try done; [| |by apply replace_from_spec];
    lia.
Qed.

Lemma socket_constants :
  Vortek.OLD_SOCKET <> [] /\ (x00 ∉ Vortek.OLD_SOCKET) /\
  (length Vortek.NEW_SOCKET < length Vortek.OLD_SOCKET)%nat /\
  overlap_free Vortek.OLD_SOCKET Vortek.NEW_SOCKET = true /\
  (Vortek.utf8_valid Vortek.OLD_SOCKET && Vortek.utf8_valid Vortek.NEW_SOCKET) = true.
Proof.
  split; [discriminate|]. split.
  - apply (bool_decide_unpack _). vm_compute. exact I.
  - split; [vm_compute; lia|]. split; vm_compute; reflexivity.
Qed.

Lemma runpath_constants :
  Vortek.OLD_RUNPATH <> [] /\ (x00 ∉ Vortek.OLD_RUNPATH) /\
  (length Vortek.NEW_RUNPATH < length Vortek.OLD_RUNPATH)%nat /\
  overlap_free Vortek.OLD_RUNPATH Vortek.NEW_RUNPATH = true /\
  (Vortek.utf8_valid Vortek.OLD_RUNPATH && Vortek.utf8_valid Vortek.NEW_RUNPATH) = true.
Proof.
  split; [discriminate|]. split.
  - apply (bool_decide_unpack _). vm_compute. exact I.
  - split; [vm_compute; lia|]. split; vm_compute; reflexivity.
Qed.

Lemma patch_binary_removes_old_witness :
  Vortek.patch_binary (Vortek.OLD_SOCKET ++ [x00; x62])
      Vortek.OLD_SOCKET Vortek.NEW_SOCKET "Socket path"
    = Ok (Vortek.NEW_SOCKET ++ replicate 11 x00 ++ [x00; x62]) /\
  ~ occurs Vortek.OLD_SOCKET (Vortek.NEW_SOCKET ++ replicate 11 x00 ++ [x00; x62]).
Proof.
  split; [vm_compute; reflexivity|].
  apply (patch_binary_removes_old (Vortek.OLD_SOCKET ++ [x00; x62])
           Vortek.OLD_SOCKET Vortek.NEW_SOCKET _ "Socket path").
  - discriminate.
  - apply (bool_decide_unpack _). vm_compute. exact I.
  - vm_compute. lia.
  - vm_compute. reflexivity.
  - vm_compute. reflexivity.
Defined.

(** On an existing file [patch_file] applies both patches and writes the
    result back. *)
Lemma patch_file_result (fs : filesystem) (filepath : string) (data : bytes) :
  fs !! filepath = Some data ->
  exists d1 d2,
    Vortek.patch_file fs filepath = Ok (<[filepath := d2]> fs) /\
    replaced_fixed Vortek.OLD_SOCKET
      (Vortek.NEW_SOCKET
         ++ replicate (length Vortek.OLD_SOCKET - length Vortek.NEW_SOCKET) x00)
      data d1 /\
    replaced_fixed Vortek.OLD_RUNPATH
      (replicate (length Vortek.OLD_RUNPATH - length Vortek.NEW_RUNPATH) x00)
      d1 d2.
Proof.
  intros Hdata.
  destruct socket_constants as (Ho1 & _ & Hl1 & _ & Hv1).
  destruct runpath_constants as (Ho2 & _ & Hl2 & _ & Hv2).
  destruct (patch_binary_fits data Vortek.OLD_SOCKET Vortek.NEW_SOCKET "Socket path")
    as (d1 & E1 & R1); [done|lia|done|].
  destruct (patch_binary_fits d1 Vortek.OLD_RUNPATH Vortek.NEW_RUNPATH "RUNPATH")
    as (d2 & E2 & R2); [done|lia|done|].
  exists d1, d2. split; [|done].
  unfold Vortek.patch_file, Vortek.patch_file_with, read_file, write_file.
  rewrite Hdata. cbn [mbind result_bind]. rewrite E1. cbn [mbind result_bind].
  by rewrite E2.
Qed.

(** The buffer that both patches leave holds neither old path. *)
Lemma both_paths_gone (data d1 d2 : bytes) :
  replaced_fixed Vortek.OLD_SOCKET
    (Vortek.NEW_SOCKET
       ++ replicate (length Vortek.OLD_SOCKET - length Vortek.NEW_SOCKET) x00)
    data d1 ->
  replaced_fixed Vortek.OLD_RUNPATH
    (replicate (length Vortek.OLD_RUNPATH - length Vortek.NEW_RUNPATH) x00)
    d1 d2 ->
  length d2 = length data /\
  ~ occurs Vortek.OLD_SOCKET d2 /\ ~ occurs Vortek.OLD_RUNPATH d2.
Proof.
  intros R1 R2.
  destruct socket_constants as (Ho1 & Hn1 & Hl1 & Hf1 & _).
  destruct runpath_constants as (Ho2 & Hn2 & Hl2 & Hf2 & _).
  split; [|split].
  - transitivity (length d1).
    + eapply replaced_fixed_length; [|exact R2]. vm_compute. reflexivity.
    + eapply replaced_fixed_length; [|exact R1]. vm_compute. reflexivity.
  - eapply (replaced_fixed_no_other Vortek.OLD_SOCKET); [done|done| |exact R2|].
    + vm_compute. lia.
    + eapply (replaced_fixed_no_old Vortek.OLD_SOCKET Vortek.NEW_SOCKET);
        [done|done| | |done|exact R1]; vm_compute; lia.
  - eapply (replaced_fixed_no_old Vortek.OLD_RUNPATH Vortek.NEW_RUNPATH);
      [done|done| | |done|exact R2]; vm_compute; lia.
Qed.

(** X11: on an existing file [patch_file] with the four constants of the
    script always returns: neither the length check nor the decoding of the
    messages stops it. It writes that one path, the new contents have the
    length of the old ones, and neither old path occurs in them any more. *)
Theorem patch_file_succeeds (fs : filesystem) (filepath : string) (data : bytes) :
  fs !! filepath = Some data ->
  exists out,
    Vortek.patch_file fs filepath = Ok (<[filepath := out]> fs) /\
    length out = length data /\
    ~ occurs Vortek.OLD_SOCKET out /\ ~ occurs Vortek.OLD_RUNPATH out.
Proof.
  intros Hdata.
  destruct (patch_file_result fs filepath data Hdata) as (d1 & d2 & E & R1 & R2).
  exists d2. split; [done|]. by apply (both_paths_gone data d1 d2).
Qed.

Lemma patch_file_succeeds_witness :
  exists out,
    Vortek.patch_file {[ "libvulkan_vortek.so"%string := Vortek.OLD_SOCKET ++ [x00; x62] ]}
        "libvulkan_vortek.so"
      = Ok (<["libvulkan_vortek.so"%string := out]>
              {[ "libvulkan_vortek.so"%string := Vortek.OLD_SOCKET ++ [x00; x62] ]}) /\
    length out = length (Vortek.OLD_SOCKET ++ [x00; x62]) /\
    ~ occurs Vortek.OLD_SOCKET out /\ ~ occurs Vortek.OLD_RUNPATH out.
Proof.
  apply (patch_file_succeeds _ "libvulkan_vortek.so"). reflexivity.
Defined.

(** X12: a second run of [patch_file] on the same path returns the file
    system of the first run: both old paths are reported as not found and
    the file is written back with the bytes it has. *)
Theorem patch_file_twice (fs fs' : filesystem) (filepath : string) :
  Vortek.patch_file fs filepath = Ok fs' ->
  Vortek.patch_file fs' filepath = Ok fs'.
Proof.
  intros Hrun.
  destruct (fs !! filepath) as [data|] eqn:Hdata.
  - destruct (patch_file_result fs filepath data Hdata) as (d1 & d2 & E & R1 & R2).
    rewrite E in Hrun. injection Hrun as <-.
    destruct (both_paths_gone data d1 d2 R1 R2) as (_ & Hno1 & Hno2).
    unfold Vortek.patch_file, Vortek.patch_file_with, read_file, write_file.
    rewrite lookup_insert_eq. cbn [mbind result_bind].
    unfold Vortek.patch_binary.
    rewrite decide_True by (by apply bytes_count_zero). cbn [mbind result_bind].
    rewrite decide_True by (by apply bytes_count_zero). cbn [mbind result_bind].
    by rewrite insert_insert_eq.
  - unfold Vortek.patch_file, Vortek.patch_file_with, read_file in Hrun.
    by rewrite Hdata in Hrun.
Qed.

Lemma patch_file_twice_witness :
  Vortek.patch_file
    {[ "libvulkan_vortek.so"%string := Vortek.NEW_SOCKET ++ replicate 11 x00 ++ [x00; x62] ]}
    "libvulkan_vortek.so"
  = Ok {[ "libvulkan_vortek.so"%string
            := Vortek.NEW_SOCKET ++ replicate 11 x00 ++ [x00; x62] ]}.
Proof.
  apply (patch_file_twice
           {[ "libvulkan_vortek.so"%string := Vortek.OLD_SOCKET ++ [x00; x62] ]}).
  vm_compute. reflexivity.
Defined.


(** ** The records of the scan *)

(** X14: the matches of a scan are recorded in the order of their trap
    offsets; every record names a row of the table of blocked syscalls, the
    word at its anchor offset in the buffer read is the encoding of the load
    of that syscall number, and both of its offsets are multiples of four
    inside the buffer. *)
Theorem scan_records_are_table_rows (data : bytes) (st : scan_state) :
  scan data = Ok st ->
  increasing (trap_offset <$> st_matches st) /\
  forall m, m ∈ st_matches st ->
    (syscall_nr m, syscall_name m) ∈ BLOCKED_SYSCALLS /\
    encode_movz_x8 (syscall_nr m)
      = Ok (slice data (anchor_offset m) (anchor_offset m + 4)) /\
    0 <= anchor_offset m /\ anchor_offset m mod 4 = 0 /\
    anchor_offset m < trap_offset m /\ trap_offset m mod 4 = 0 /\
    trap_offset m + 4 <= Z.of_nat (length data).
Proof.
  intros Hscan.
  destruct (scan_run data) as (n & st' & _ & Hn & Hscan' & Hinv).
  rewrite Hscan in Hscan'. injection Hscan' as <-.
  split; [apply (inv_sorted _ _ _ _ Hinv)|]. intros m Hm.
  pose proof (inv_matches _ _ _ _ Hinv) as Hall. rewrite Forall_forall in Hall.
  destruct (Hall m Hm) as [Hlo Hhi Hal Hdist Hanchor Hanchor0 Hword _ _].
  assert (Hsame : slice (st_data st) (anchor_offset m) (anchor_offset m + 4)
                  = slice data (anchor_offset m) (anchor_offset m + 4)).
  { apply slice_ext; [done|]. intros i Hi.
    apply (inv_frame _ _ _ _ Hinv). intros m' Hm'.
    exact (anchor_not_in_trap data _ st m m' i Hinv Hm Hm' Hi). }
  rewrite Hsame in Hword. apply the_targets_lookup in Hword.
  assert (0 < n)%nat by (destruct n; [lia|lia]).
  split; [|split].
  - destruct Hword as [[_ [= Hnr Hname]]|[_ [= Hnr Hname]]]; rewrite Hnr, Hname;
      unfold BLOCKED_SYSCALLS; repeat constructor.
  - destruct Hword as [[Hw [= Hnr _]]|[Hw [= Hnr _]]]; rewrite Hw, Hnr;
      [apply encode_movz_x8_293|apply encode_movz_x8_99].
  - repeat split; try done; [Z.div_mod_to_equations; lia|lia|lia].
Qed.

Lemma scan_records_are_table_rows_witness :
  increasing (trap_offset <$> [ mkMatch 4 0 1 99 "set_robust_list" ]) /\
  forall m, m ∈ [ mkMatch 4 0 1 99 "set_robust_list" ] ->
    (syscall_nr m, syscall_name m) ∈ BLOCKED_SYSCALLS /\
    encode_movz_x8 (syscall_nr m)
      = Ok (slice (MOV_X8_99 ++ SVC_0) (anchor_offset m) (anchor_offset m + 4)) /\
    0 <= anchor_offset m /\ anchor_offset m mod 4 = 0 /\
    anchor_offset m < trap_offset m /\ trap_offset m mod 4 = 0 /\
    trap_offset m + 4 <= Z.of_nat (length (MOV_X8_99 ++ SVC_0)).
Proof.
  apply (scan_records_are_table_rows (MOV_X8_99 ++ SVC_0)
           (mkScan (MOV_X8_99 ++ MOVN_X0_37) [ mkMatch 4 0 1 99 "set_robust_list" ])).
  vm_compute. reflexivity.
Defined.
